(** * TB6612FNG motor driver: a shallow embedding of [tb6612fng.py]

    The development follows the source file top to bottom:

    - [PyNum]: the Python numbers the driver computes with ([int] and
      [float]), with the built-ins the source calls on them ([abs], [min],
      [max], [round], the comparisons, [+] and [*]);
    - [percent_to_duty]: the duty converter;
    - [Driver]: the [TB6612FNG] class.  The instance (its attributes and the
      hardware handles behind them) is an explicit state, methods are
      computations in a state-and-exception monad, and every hardware access
      is also appended to an event log;
    - the ramp generator [drive_ramp] and the two wrappers that consume it.

    Floats are IEEE 754 binary floating-point numbers, taken from the
    specification of floating-point arithmetic of the standard library
    ([SpecFloat]); the driver is instantiated at binary64. *)

From Stdlib Require Import ZArith Lia List String Bool.
From Stdlib Require Import SpecFloat.
Import ListNotations.
Open Scope Z_scope.

(** ** Exceptions and results *)

Inductive exn : Type :=
| ValueError (msg : string)
| TypeError
| AttributeError
| OverflowError
| KeyboardInterrupt
| CancelledError.

Inductive result (A : Type) : Type :=
| Ok (a : A)
| Raise (e : exn).
Arguments Ok {A} a.
Arguments Raise {A} e.

Definition is_ok {A} (r : result A) : bool :=
  match r with Ok _ => true | Raise _ => false end.

(** ** Python numbers *)

Module PyNum.

(** An [int] is unbounded; a [float] is a binary floating-point datum. *)
Inductive num : Type :=
| Int (z : Z)
| Float (f : spec_float).

(** The integer nearest to a finite float, ties to the even one: what
    [round(x)] returns on a float.  [round] raises on the two kinds of
    float that have no integer value. *)
Definition round_half_even (n d : Z) : Z :=
  let q := n / d in
  match (2 * (n mod d) ?= d) with
  | Lt => q
  | Gt => q + 1
  | Eq => if Z.even q then q else q + 1
  end.

Definition float_to_Z_nearest (f : spec_float) : result Z :=
  match f with
  | S754_nan => Raise (ValueError "cannot convert float NaN to integer")
  | S754_infinity _ => Raise OverflowError
  | S754_zero _ => Ok 0
  | S754_finite s m e =>
      let a := match e with
               | Zneg k => round_half_even (Zpos m) (2 ^ Zpos k)
               | _ => Zpos m * 2 ^ e
               end in
      Ok (if s then - a else a)
  end.

(** Mixed comparisons are exact: the integer is compared with the value
    [m * 2^e] of the float, not converted first. *)
Definition Zcompare_float (z : Z) (f : spec_float) : option comparison :=
  match f with
  | S754_nan => None
  | S754_infinity s => Some (if s then Gt else Lt)
  | S754_zero _ => Some (z ?= 0)
  | S754_finite s m e =>
      let v := if s then Zneg m else Zpos m in
      Some match e with
           | Zneg k => z * 2 ^ Zpos k ?= v
           | _ => z ?= v * 2 ^ e
           end
  end.

Definition compare (a b : num) : option comparison :=
  match a, b with
  | Int x, Int y => Some (x ?= y)
  | Int x, Float g => Zcompare_float x g
  | Float f, Int y => option_map CompOpp (Zcompare_float y f)
  | Float f, Float g => SFcompare f g
  end.

(** [a == b], [a != b], [a < b], [a > b]; every ordered comparison with a
    NaN is false, and [!=] is the negation of [==]. *)
Definition eqb (a b : num) : bool :=
  match compare a b with Some Eq => true | _ => false end.
Definition neb (a b : num) : bool := negb (eqb a b).
Definition ltb (a b : num) : bool :=
  match compare a b with Some Lt => true | _ => false end.
Definition gtb (a b : num) : bool :=
  match compare a b with Some Gt => true | _ => false end.
Definition leb (a b : num) : bool :=
  match compare a b with Some (Lt | Eq) => true | _ => false end.

(** [min(a, b)] and [max(a, b)] keep the first argument unless the second
    is strictly smaller (larger). *)
Definition min (a b : num) : num := if ltb b a then b else a.
Definition max (a b : num) : num := if gtb b a then b else a.

Definition abs (a : num) : num :=
  match a with
  | Int z => Int (Z.abs z)
  | Float f => Float (SFabs f)
  end.

Definition round (a : num) : result Z :=
  match a with
  | Int z => Ok z
  | Float f => float_to_Z_nearest f
  end.

(** [-a]. *)
Definition neg (a : num) : num :=
  match a with
  | Int z => Int (- z)
  | Float f => Float (SFopp f)
  end.

Section Format.
(** The float format: [prec] bits of mantissa, infinities at exponent
    [emax]. *)
Variables prec emax : Z.

Definition of_Z (z : Z) : spec_float := binary_normalize prec emax z 0 false.

(** A decimal literal [n / d] denotes the float nearest to it. *)
Definition literal (n d : Z) : spec_float :=
  SFdiv prec emax (of_Z n) (of_Z d).

Definition to_float (a : num) : spec_float :=
  match a with
  | Int z => of_Z z
  | Float f => f
  end.

(** [a + b] and [a * b]: integer arithmetic on two [int]s, float
    arithmetic as soon as one operand is a [float]. *)
Definition add (a b : num) : num :=
  match a, b with
  | Int x, Int y => Int (x + y)
  | _, _ => Float (SFadd prec emax (to_float a) (to_float b))
  end.

Definition mul (a b : num) : num :=
  match a, b with
  | Int x, Int y => Int (x * y)
  | _, _ => Float (SFmul prec emax (to_float a) (to_float b))
  end.
End Format.

End PyNum.
Import PyNum.

(** ** The duty converter *)

Section DutyConverter.
Variables prec emax : Z.

(** [percent_to_duty(p)], lines 5-17. *)
Definition percent_to_duty_in (p : num) : result Z :=
  let p := PyNum.max (Int 0) (PyNum.min (Int 100) (PyNum.abs p)) in
  match PyNum.round (mul prec emax p (Float (literal prec emax 65535 100))) with
  | Ok r => Ok (Z.min r 65535)
  | Raise e => Raise e
  end.
End DutyConverter.

(** Python floats are binary64. *)
Definition percent_to_duty : num -> result Z := percent_to_duty_in 53 1024.

(** The same function where floats are binary32, as on the
    single-precision builds of the interpreter. *)
Definition percent_to_duty_single : num -> result Z := percent_to_duty_in 24 128.

(** ** The driver instance and its hardware *)

(** What the outside of the driver can observe, in the order it happens:
    the level written to each line, the duty written to the PWM channel,
    the delays requested, and the calls of the observer callback. *)
Inductive event : Type :=
| WriteP1 (level : bool)
| WriteP2 (level : bool)
| WriteDuty (d : Z)
| WriteStby (level : bool)
| SleepMs (ms : Z)
| AsyncSleepMs (ms : Z)
| Status (v : num).

(** The instance: the two direction lines [p1] and [p2], the PWM channel
    [pwm] (its 16-bit duty), the optional standby line [stby] (the attribute
    exists only when a pin was given to the constructor) and the attribute
    [speed].  [log] is the trace of events, most recent last.  [irq] is the
    signal the environment has pending: [Some k] when it arrives in the
    delay that follows [k] completed ones.  In a blocking delay it is a
    [KeyboardInterrupt]; in a cooperative one it is the cancellation of the
    task. *)
Record state : Type := mkState {
  p1 : bool;
  p2 : bool;
  pwm : Z;
  stby : option bool;
  speed : num;
  log : list event;
  irq : option nat
}.

Definition set_p1 (b : bool) (s : state) : state :=
  mkState b (p2 s) (pwm s) (stby s) (speed s) (log s ++ [WriteP1 b]) (irq s).
Definition set_p2 (b : bool) (s : state) : state :=
  mkState (p1 s) b (pwm s) (stby s) (speed s) (log s ++ [WriteP2 b]) (irq s).
Definition set_pwm (d : Z) (s : state) : state :=
  mkState (p1 s) (p2 s) d (stby s) (speed s) (log s ++ [WriteDuty d]) (irq s).
Definition set_stby (b : bool) (s : state) : state :=
  mkState (p1 s) (p2 s) (pwm s) (Some b) (speed s) (log s ++ [WriteStby b]) (irq s).
Definition set_speed (v : num) (s : state) : state :=
  mkState (p1 s) (p2 s) (pwm s) (stby s) v (log s) (irq s).
Definition set_irq (i : option nat) (s : state) : state :=
  mkState (p1 s) (p2 s) (pwm s) (stby s) (speed s) (log s) i.
Definition emit (e : event) (s : state) : state :=
  mkState (p1 s) (p2 s) (pwm s) (stby s) (speed s) (log s ++ [e]) (irq s).

(** ** Methods are computations that read and write the instance and may
    raise *)

Definition M (A : Type) : Type := state -> result A * state.

Definition ret {A} (a : A) : M A := fun s => (Ok a, s).
Definition raise {A} (e : exn) : M A := fun s => (Raise e, s).
Definition bind {A B} (c : M A) (k : A -> M B) : M B :=
  fun s => match c s with
           | (Ok a, s') => k a s'
           | (Raise e, s') => (Raise e, s')
           end.
Definition modify (f : state -> state) : M unit := fun s => (Ok tt, f s).
Definition get {A} (f : state -> A) : M A := fun s => (Ok (f s), s).
Definition lift {A} (r : result A) : M A := fun s => (r, s).

Notation "x <- c ;; k" := (bind c (fun x => k))
  (at level 61, c at next level, right associativity).
Notation "c ;; k" := (bind c (fun _ => k))
  (at level 61, right associativity).

Module Driver.

(** [set_raw_values(pin1=None, pin2=None, pwm_duty=None)], lines 56-70. *)
Definition set_raw_values (pin1 pin2 : option bool) (pwm_duty : option Z) : M unit :=
  match pin1 with Some v => modify (set_p1 v) | None => ret tt end ;;
  match pin2 with Some v => modify (set_p2 v) | None => ret tt end ;;
  match pwm_duty with Some d => modify (set_pwm d) | None => ret tt end.

(** Lines 72-96. *)
Definition brake : M unit := set_raw_values (Some true) (Some true) (Some 0).
Definition coast : M unit := set_raw_values (Some false) (Some false) (Some 0).
Definition set_forward : M unit := set_raw_values (Some true) (Some false) None.
Definition set_reverse : M unit := set_raw_values (Some false) (Some true) None.

(** [getattr(self, f'set_{direction}', None)]: the lookup of an attribute
    by name.  The attributes of an instance whose name starts with [set_]
    are the four methods of the class below; no data attribute ([p1], [p2],
    [pwm], [stby], [speed]) and no inherited one has such a name. *)
Inductive set_method : Type :=
| Set_raw_values
| Set_forward
| Set_reverse
| Set_motor.

Definition getattr_set (direction : string) : option set_method :=
  let name := ("set_" ++ direction)%string in
  if (name =? "set_raw_values")%string then Some Set_raw_values
  else if (name =? "set_forward")%string then Some Set_forward
  else if (name =? "set_reverse")%string then Some Set_reverse
  else if (name =? "set_motor")%string then Some Set_motor
  else None.

(** [method()]: the bound method called with no argument.  The three
    parameters of [set_raw_values] default to [None]; [set_motor] has two
    required parameters, so the call fails before its body runs. *)
Definition call0 (m : set_method) : M unit :=
  match m with
  | Set_raw_values => set_raw_values None None None
  | Set_forward => set_forward
  | Set_reverse => set_reverse
  | Set_motor => raise TypeError
  end.

(** [set_motor(direction, speed)], lines 98-111. *)
Definition set_motor (direction : string) (speed : num) : M unit :=
  match getattr_set direction with
  | None => raise (ValueError ("Invalid direction: " ++ direction))
  | Some method =>
      call0 method ;;
      duty <- lift (percent_to_duty speed) ;;
      set_raw_values None None (Some duty)
  end.

(** [drive(speed=None, auto_brake=True)], lines 114-136. *)
Definition drive (speed_arg : option num) (auto_brake : bool) : M num :=
  match speed_arg with
  | Some sp =>
      let p := PyNum.max (Int (-100)) (PyNum.min (Int 100) sp) in
      modify (set_speed p) ;;
      (if neb p (Int 0)
       then set_motor (if ltb p (Int 0) then "reverse" else "forward") (PyNum.abs p)
       else if auto_brake then brake else coast)
  | None => ret tt
  end ;;
  get speed.

(** [on()] and [off(auto_brake=True)], lines 188-206.  Reading [self.stby]
    fails when the attribute was never assigned. *)
Definition stby_value (v : bool) : M unit :=
  h <- get stby ;;
  match h with
  | Some _ => modify (set_stby v)
  | None => raise AttributeError
  end.

Definition on : M unit := stby_value true.

Definition off (auto_brake : bool) : M unit :=
  (if auto_brake then brake else coast) ;;
  stby_value false.

(** [__init__(pin_1, pin_2, pwm_pin, stby_pin=None, pwm_freq=20_000)],
    lines 34-53.  The pin numbers and the frequency only select and
    configure the handles; [stby_pin] decides whether the attribute [stby]
    exists.  [blank] is the object before [__init__] runs, on hardware
    whose lines are at the levels [l1], [l2] with duty [d].  It has no
    attribute [speed] yet: [v] stands for the unassigned slot, and is
    arbitrary, so that only the assignment of line 52 can make the speed
    what it is after construction. *)
Definition blank (l1 l2 : bool) (d : Z) (i : option nat) (v : num) : state :=
  mkState l1 l2 d None v [] i.

Definition init (stby_pin : option Z) : M unit :=
  match stby_pin with
  | Some _ => modify (fun s => mkState (p1 s) (p2 s) (pwm s) (Some false)
                                       (speed s) (log s) (irq s)) ;; on
  | None => ret tt
  end ;;
  modify (set_speed (Int 0)) ;;
  brake.

(** *** The ramp *)

(** One resumption of the generator [drive_ramp(target_speed, status_func)],
    lines 150-156: [Some v] when it yields [v], [None] when it returns
    (the caller sees [StopIteration]).  The generator has no local state:
    started or resumed after a [yield], it continues at the loop test. *)
Definition drive_ramp_next (target_speed : num)
    (status_func : option (num -> M unit)) : M (option num) :=
  c <- drive None true ;;
  if neb c target_speed then
    c1 <- drive None true ;;
    let change := if gtb c1 target_speed then Int (-1) else Int 1 in
    match status_func with
    | Some f => c2 <- drive None true ;; f c2
    | None => ret tt
    end ;;
    c3 <- drive None true ;;
    v <- drive (Some (add 53 1024 c3 change)) true ;;
    ret (Some v)
  else
    match status_func with
    | Some f => c2 <- drive None true ;; f c2
    | None => ret tt
    end ;;
    ret None.

(** A delay: it completes, or the pending signal arrives in it and the
    delay raises [x] in its caller. *)
Definition sleep_with (e : event) (x : exn) : M unit :=
  fun s => match irq s with
           | Some O => (Raise x, set_irq None s)
           | Some (S k) => (Ok tt, emit e (set_irq (Some k) s))
           | None => (Ok tt, emit e s)
           end.

(** [time.sleep_ms(ms)]: the thread sleeps; an interrupt from the keyboard
    during the sleep is raised there as [KeyboardInterrupt]. *)
Definition sleep_ms (ms : Z) : M unit := sleep_with (SleepMs ms) KeyboardInterrupt.

(** [await asyncio.sleep_ms(ms)]: the coroutine is suspended and the
    scheduler runs.  It is resumed when the delay has passed, or, when its
    task is cancelled meanwhile, with [CancelledError] raised at the
    [await].  (An interrupt from the keyboard during the delay is raised in
    the scheduler, not in the coroutine, which is then never resumed.) *)
Definition async_sleep_ms (ms : Z) : M unit := sleep_with (AsyncSleepMs ms) CancelledError.

(** [for _ in self.drive_ramp(target_speed, status_func): body].  The
    loop runs as long as the generator yields; [fuel] bounds the number of
    resumptions, and [None] is the loop still running when it is used up.
    The values yielded are collected (the loops of the source drop them). *)
Fixpoint for_ramp (fuel : nat) (target_speed : num)
    (status_func : option (num -> M unit)) (body : M unit)
    (s : state) : option (result (list num) * state) :=
  match fuel with
  | O => None
  | S fuel' =>
      match drive_ramp_next target_speed status_func s with
      | (Raise e, s1) => Some (Raise e, s1)
      | (Ok None, s1) => Some (Ok [], s1)
      | (Ok (Some v), s1) =>
          match body s1 with
          | (Raise e, s2) => Some (Raise e, s2)
          | (Ok _, s2) =>
              match for_ramp fuel' target_speed status_func body s2 with
              | Some (Ok vs, s3) => Some (Ok (v :: vs), s3)
              | r => r
              end
          end
      end
  end.

(** The generator run to its end with nothing between the steps, as in
    [list(self.drive_ramp(target_speed, status_func))]. *)
Definition ramp_run (fuel : nat) (target_speed : num)
    (status_func : option (num -> M unit)) : state -> option (result (list num) * state) :=
  for_ramp fuel target_speed status_func (ret tt).

(** [safe_drive] (lines 158-171) and [safe_drive_async] (lines 173-186):
    the loop inside [try], [self.brake()] in the handler. *)
Definition guarded (loop : state -> option (result (list num) * state))
    (s : state) : option (result unit * state) :=
  match loop s with
  | Some (Raise KeyboardInterrupt, s') => Some (brake s')
  | Some (Raise e, s') => Some (Raise e, s')
  | Some (Ok _, s') => Some (Ok tt, s')
  | None => None
  end.

Definition safe_drive (fuel : nat) (target_speed : num) (change_speed : Z)
    (status_func : option (num -> M unit)) : state -> option (result unit * state) :=
  guarded (for_ramp fuel target_speed status_func (sleep_ms change_speed)).

Definition safe_drive_async (fuel : nat) (target_speed : num) (change_speed : Z)
    (status_func : option (num -> M unit)) : state -> option (result unit * state) :=
  guarded (for_ramp fuel target_speed status_func (async_sleep_ms change_speed)).

(** The observer used in the statements below: a callback that does
    nothing but be called, which the trace records. *)
Definition observer (v : num) : M unit := modify (emit (Status v)).

End Driver.
Import Driver.

(** * Vocabulary of the statements *)

(** ** The duty converter *)

(** The duty converter as the specification words it: absolute value,
    clamp to [0,100], multiply by 655.35 (the exact ratio 65535/100), round
    to the nearest integer (ties to even), clamp to at most 65535.  All in
    exact integer arithmetic, to be compared with [percent_to_duty]. *)
Definition percent_to_duty_spec (p : Z) : Z :=
  Z.min (round_half_even (Z.max 0 (Z.min 100 (Z.abs p)) * 65535) 100) 65535.

(** [r] is the value [z] (and not an exception). *)
Definition result_Z_eqb (r : result Z) (z : Z) : bool :=
  match r with Ok a => a =? z | Raise _ => false end.

(** The scaling and rounding of line 17 on an integer percentage. *)
Definition scaled (prec emax : Z) (z : Z) : result Z :=
  PyNum.round (mul prec emax (Int z) (Float (literal prec emax 65535 100))).

(** A float that is zero or positive, and finite. *)
Definition nonneg_finite (f : spec_float) : Prop :=
  match f with
  | S754_zero false | S754_finite false _ _ => True
  | _ => False
  end.

(** ** Speeds *)

(** The closed range [-100, 100] of the data model. *)
Definition in_range (p : num) : Prop :=
  leb (Int (-100)) p = true /\ leb p (Int 100) = true.

(** [max(-100, min(100, speed))], line 130. *)
Definition clamp (sp : num) : num :=
  PyNum.max (Int (-100)) (PyNum.min (Int 100) sp).

(** The same on integers. *)
Definition clampZ (z : Z) : Z := Z.max (-100) (Z.min 100 z).

(** The float 0.5. *)
Definition half : spec_float := literal 53 1024 1 2.

(** ** States of the lines *)

(** The writes of [brake], [coast], [set_forward] and [set_reverse]. *)
Definition brake_state (s : state) : state := set_pwm 0 (set_p2 true (set_p1 true s)).
Definition coast_state (s : state) : state := set_pwm 0 (set_p2 false (set_p1 false s)).
Definition forward_state (s : state) : state := set_p2 false (set_p1 true s).
Definition reverse_state (s : state) : state := set_p2 true (set_p1 false s).

(** The Brake state of the data model: both direction lines asserted,
    duty 0. *)
Definition is_brake (s : state) : Prop := p1 s = true /\ p2 s = true /\ pwm s = 0.

(** The state [drive(speed)] leaves, for the clamped speed [p] and the duty
    [d] of its magnitude. *)
Definition drive_state (p : num) (auto_brake : bool) (d : Z) (s : state) : state :=
  let s1 := set_speed p s in
  if neb p (Int 0) then
    set_pwm d (if ltb p (Int 0) then reverse_state s1 else forward_state s1)
  else if auto_brake then brake_state s1 else coast_state s1.

(** ** Observer and trace *)

(** The two ways a ramp is called in the statements: without a callback, or
    with the recording [observer]. *)
Definition status_of (registered : bool) : option (num -> M unit) :=
  if registered then Some observer else None.

(** The state after the callback, if any, was called with [v]. *)
Definition notify (registered : bool) (v : num) (s : state) : state :=
  if registered then emit (Status v) s else s.

(** The calls of the observer recorded in a trace, in order. *)
Fixpoint statuses (l : list event) : list num :=
  match l with
  | [] => []
  | Status v :: l' => v :: statuses l'
  | _ :: l' => statuses l'
  end.

(** The events a computation appends to the trace. *)
Definition new_events {A} (c : M A) (s : state) : list event :=
  skipn (List.length (log s)) (log (snd (c s))).

(** ** Ramps *)

(** The unit step of line 151. *)
Definition step_toward (c t : Z) : Z := if c >? t then c - 1 else c + 1.

(** The value of the next step of a ramp towards [t], lines 151 and 154:
    the stored speed moved by one unit, clamped by [drive]. *)
Definition ramp_step_value (t : num) (s : state) : num :=
  clamp (add 53 1024 (speed s) (if gtb (speed s) t then Int (-1) else Int 1)).

(** The arithmetic progression of unit steps from [c] towards [t], [c]
    excluded and [t] included. *)
Definition ramp_steps (c t : Z) : list Z :=
  map (fun i => if c >? t then c - Z.of_nat (S i) else c + Z.of_nat (S i))
      (seq 0 (Z.to_nat (Z.abs (t - c)))).

(** The state after [n] resumptions of a ramp without callback. *)
Definition after_steps (n : nat) (target_speed : num) (s : state) : state :=
  Nat.iter n (fun s0 => snd (drive_ramp_next target_speed None s0)) s.

(** ** Reachable states *)

(** The calls a client can make on an instance.  A ramp is consumed through
    its resumptions or through one of the two wrappers; its callback is
    absent or the recording observer. *)
Inductive call : Type :=
| Call_set_raw_values (pin1 pin2 : option bool) (pwm_duty : option Z)
| Call_brake
| Call_coast
| Call_set_forward
| Call_set_reverse
| Call_set_motor (direction : string) (sp : num)
| Call_drive (sp : option num) (auto_brake : bool)
| Call_next (target_speed : num) (registered : bool)
| Call_safe_drive (fuel : nat) (target_speed : num) (change_speed : Z) (registered : bool)
| Call_safe_drive_async (fuel : nat) (target_speed : num) (change_speed : Z)
                        (registered : bool)
| Call_on
| Call_off (auto_brake : bool).

(** The state a call leaves, whether it returns or raises; [None] for a
    wrapper that is still looping when the fuel is used up. *)
Definition run (c : call) (s : state) : option state :=
  match c with
  | Call_set_raw_values a b d => Some (snd (set_raw_values a b d s))
  | Call_brake => Some (snd (brake s))
  | Call_coast => Some (snd (coast s))
  | Call_set_forward => Some (snd (set_forward s))
  | Call_set_reverse => Some (snd (set_reverse s))
  | Call_set_motor d sp => Some (snd (set_motor d sp s))
  | Call_drive sp ab => Some (snd (drive sp ab s))
  | Call_next t b => Some (snd (drive_ramp_next t (status_of b) s))
  | Call_safe_drive fuel t ms b => option_map snd (safe_drive fuel t ms (status_of b) s)
  | Call_safe_drive_async fuel t ms b =>
      option_map snd (safe_drive_async fuel t ms (status_of b) s)
  | Call_on => Some (snd (on s))
  | Call_off ab => Some (snd (off ab s))
  end.

(** The states of an instance built with [stby_pin]: after [__init__], after
    any call, and whenever the environment schedules or drops a
    signal. *)
Inductive reachable (stby_pin : option Z) : state -> Prop :=
| reach_init l1 l2 d i v :
    reachable stby_pin (snd (init stby_pin (blank l1 l2 d i v)))
| reach_call c s s' :
    reachable stby_pin s -> run c s = Some s' -> reachable stby_pin s'
| reach_irq i s :
    reachable stby_pin s -> reachable stby_pin (set_irq i s).

(** What every call keeps: a missing standby handle stays missing, a speed
    in range stays in range. *)
Definition keeps (s s' : state) : Prop :=
  (stby s = None -> stby s' = None) /\
  (in_range (speed s) -> in_range (speed s')).

(** ** Particular states *)

(** The instance right after construction, without standby pin, on lines
    that were low. *)
Definition fresh : state := snd (init None (blank false false 0 None (Int 77))).

(** The ramp from 10 to -3: the instance driven at 10, and the same after
    nine resumptions of the ramp. *)
Definition at_speed_10 : state := snd (drive (Some (Int 10)) true fresh).
Definition at_speed_1 : state := after_steps 9 (Int (-3)) at_speed_10.

(** The instance driven at 99, one step below the bound. *)
Definition at_speed_99 : state := snd (drive (Some (Int 99)) true fresh).

(** The instance at speed 0 with an interrupt due in the third delay. *)
Definition interrupted_in_third_delay : state := set_irq (Some 2%nat) fresh.

(** A state reached by calls that ask for speeds out of range. *)
Definition after_wild_calls : state :=
  snd (drive (Some (Int (-200))) false (snd (drive (Some (Int 200)) true fresh))).

(** ** Outputs and traces of a drive call *)

(** The three outputs: the two direction lines and the duty. *)
Definition hw (s : state) : bool * bool * Z := (p1 s, p2 s, pwm s).

(** What [drive(p)] writes for an integer [p] of the range, lines 132-135:
    the stop mode at 0, else the lines of the sign and the duty of the
    magnitude. *)
Definition drive_events (p : Z) (auto_brake : bool) : list event :=
  if p =? 0 then
    if auto_brake then [WriteP1 true; WriteP2 true; WriteDuty 0]
    else [WriteP1 false; WriteP2 false; WriteDuty 0]
  else if p <? 0 then
    [WriteP1 false; WriteP2 true; WriteDuty (percent_to_duty_spec p)]
  else
    [WriteP1 true; WriteP2 false; WriteDuty (percent_to_duty_spec p)].

(** The outputs these writes leave. *)
Definition drive_hw (p : Z) (auto_brake : bool) : bool * bool * Z :=
  if p =? 0 then (auto_brake, auto_brake, 0)
  else (0 <? p, p <? 0, percent_to_duty_spec p).

(** The trace of a ramp that starts at [c] and takes the given steps, with
    the events [between] of the loop body after each step: before each step
    the call of the callback, if any, then the writes of the step; at the
    end the last call of the callback. *)
Fixpoint ramp_trace (registered : bool) (between : list event) (c : Z)
    (steps : list Z) : list event :=
  match steps with
  | [] => if registered then [Status (Int c)] else []
  | x :: rest =>
      (if registered then [Status (Int c)] else [])
        ++ drive_events x true ++ between ++ ramp_trace registered between x rest
  end.

(** The total of the delays requested in a trace, in milliseconds. *)
Fixpoint slept (l : list event) : Z :=
  match l with
  | [] => 0
  | SleepMs ms :: l' => ms + slept l'
  | AsyncSleepMs ms :: l' => ms + slept l'
  | _ :: l' => slept l'
  end.

(** What [drive] looks at in a float speed of integral value. *)
Definition same_as_integer (z : Z) : bool :=
  let p := clamp (Float (of_Z 53 1024 z)) in
  eqb p (Int z)
  && Bool.eqb (neb p (Int 0)) (neb (Int z) (Int 0))
  && Bool.eqb (ltb p (Int 0)) (ltb (Int z) (Int 0))
  && result_Z_eqb (percent_to_duty (PyNum.abs p)) (percent_to_duty_spec z).

(** A callback that raises [e]. *)
Definition raising (e : exn) : num -> M unit := fun _ => raise e.

(** An instance built with a standby pin. *)
Definition with_standby : state :=
  snd (init (Some 6) (blank false false 0 None (Int 77))).

(** What the calls keep of the standby handle when there is one. *)
Definition keeps_handle (s s' : state) : Prop :=
  stby s <> None -> stby s' <> None.

(** * Properties *)

(** ** The duty converter on integers *)

Lemma min_Int a b : PyNum.min (Int a) (Int b) = Int (Z.min a b).
Proof.
  unfold PyNum.min, ltb; simpl.
  destruct (Z.compare_spec b a); f_equal; lia.
Qed.

Lemma max_Int a b : PyNum.max (Int a) (Int b) = Int (Z.max a b).
Proof.
  unfold PyNum.max, gtb; simpl.
  destruct (Z.compare_spec b a); f_equal; lia.
Qed.

Lemma result_Z_eqb_eq r z : result_Z_eqb r z = true -> r = Ok z.
Proof. destruct r; simpl; [rewrite Z.eqb_eq; congruence | discriminate]. Qed.

Lemma forall_percent (f : Z -> bool) :
  forallb f (map Z.of_nat (seq 0 101)) = true ->
  forall z, 0 <= z <= 100 -> f z = true.
Proof.
  intros H z Hz. rewrite forallb_forall in H. apply H.
  apply in_map_iff. exists (Z.to_nat z). split; [lia |].
  apply in_seq. lia.
Qed.

Lemma percent_to_duty_in_Int prec emax z :
  percent_to_duty_in prec emax (Int z) =
  match scaled prec emax (Z.max 0 (Z.min 100 (Z.abs z))) with
  | Ok r => Ok (Z.min r 65535)
  | Raise e => Raise e
  end.
Proof.
  unfold percent_to_duty_in, scaled. simpl PyNum.abs.
  now rewrite min_Int, max_Int.
Qed.

Lemma scaled_double z :
  0 <= z <= 100 -> scaled 53 1024 z = Ok (round_half_even (z * 65535) 100).
Proof.
  intros Hz. apply result_Z_eqb_eq.
  revert z Hz.
  apply (forall_percent
           (fun z => result_Z_eqb (scaled 53 1024 z) (round_half_even (z * 65535) 100))).
  vm_compute. reflexivity.
Qed.

Lemma percent_to_duty_Int z :
  percent_to_duty (Int z) = Ok (percent_to_duty_spec z).
Proof.
  unfold percent_to_duty. rewrite percent_to_duty_in_Int.
  rewrite scaled_double by lia. reflexivity.
Qed.

Lemma percent_to_duty_spec_range z : 0 <= percent_to_duty_spec z <= 65535.
Proof.
  unfold percent_to_duty_spec.
  set (a := Z.max 0 (Z.min 100 (Z.abs z))).
  assert (Ha : 0 <= a <= 100) by (subst a; lia).
  assert (0 <= round_half_even (a * 65535) 100); [| lia].
  unfold round_half_even.
  assert (0 <= a * 65535 / 100) by (apply Z.div_pos; lia).
  destruct (2 * ((a * 65535) mod 100) ?= 100); try lia.
  destruct (Z.even _); lia.
Qed.

Lemma percent_to_duty_spec_abs z :
  percent_to_duty_spec (Z.abs z) = percent_to_duty_spec z.
Proof. unfold percent_to_duty_spec. f_equal. f_equal. lia. Qed.

Lemma percent_to_duty_spec_next k :
  0 <= k <= 100 ->
  k = 100 \/ percent_to_duty_spec k + 655 <= percent_to_duty_spec (k + 1).
Proof.
  intros Hk.
  assert (H : ((k =? 100) || (percent_to_duty_spec k + 655 <=? percent_to_duty_spec (k + 1)))
              = true).
  { revert k Hk.
    apply (forall_percent
             (fun k => (k =? 100)
                       || (percent_to_duty_spec k + 655 <=? percent_to_duty_spec (k + 1)))).
    vm_compute. reflexivity. }
  apply orb_true_iff in H. destruct H as [H|H]; [left | right]; lia.
Qed.

Lemma percent_to_duty_spec_grows : forall n a,
  0 <= a -> a + Z.of_nat n <= 100 ->
  percent_to_duty_spec a + 655 * Z.of_nat n <= percent_to_duty_spec (a + Z.of_nat n).
Proof.
  induction n as [|n IH]; intros a Ha Hb.
  - replace (a + Z.of_nat 0) with a by lia. lia.
  - specialize (IH a Ha ltac:(lia)).
    destruct (percent_to_duty_spec_next (a + Z.of_nat n)) as [E|L]; try lia.
    replace (a + Z.of_nat (S n)) with (a + Z.of_nat n + 1) by lia. lia.
Qed.

Lemma percent_to_duty_spec_nonzero p : p <> 0 -> 655 <= percent_to_duty_spec p <= 65535.
Proof.
  intros Hp. split; [| apply percent_to_duty_spec_range].
  rewrite <- percent_to_duty_spec_abs.
  destruct (Z_le_gt_dec (Z.abs p) 100) as [L|L].
  - pose proof (percent_to_duty_spec_grows (Z.to_nat (Z.abs p)) 0 ltac:(lia) ltac:(lia)) as G.
    replace (0 + Z.of_nat (Z.to_nat (Z.abs p))) with (Z.abs p) in G by lia.
    change (percent_to_duty_spec 0) with 0 in G. lia.
  - unfold percent_to_duty_spec.
    replace (Z.max 0 (Z.min 100 (Z.abs (Z.abs p)))) with 100 by lia.
    vm_compute. discriminate.
Qed.

(** ** Rounding of a float product never overflows on small operands *)

Section RoundingBounds.
Variables prec emax : Z.
Hypothesis Hprec : 0 < prec.
Hypothesis Hemax : prec < emax.

Lemma digits2_pos_size p : digits2_pos p = Pos.size p.
Proof. induction p; simpl; congruence. Qed.

Lemma Zdigits2_nonneg m : 0 <= Zdigits2 m.
Proof. destruct m; simpl; lia. Qed.

Lemma Zdigits2_gt m : 0 <= m -> m < 2 ^ Zdigits2 m.
Proof.
  destruct m as [|p|p]; simpl Zdigits2; intros H; try lia.
  rewrite digits2_pos_size.
  pose proof (Pos.size_gt p) as G.
  apply Pos2Z.pos_lt_pos in G. now rewrite Pos2Z.inj_pow in G.
Qed.

Lemma Zdigits2_le_pos p : 2 ^ Zdigits2 (Zpos p) <= 2 * Zpos p.
Proof.
  simpl Zdigits2. rewrite digits2_pos_size.
  pose proof (Pos.size_le p) as G.
  apply Pos2Z.pos_le_pos in G. now rewrite Pos2Z.inj_pow in G.
Qed.

Lemma Zdigits2_upper m k : 0 <= k -> 0 <= m < 2 ^ k -> Zdigits2 m <= k.
Proof.
  intros Hk [H0 Hm]. destruct m as [|p|p]; [simpl; lia | | lia].
  destruct (Z_le_gt_dec (Zdigits2 (Zpos p)) k) as [L|G]; [exact L | exfalso].
  pose proof (Zdigits2_le_pos p) as U.
  assert (2 ^ (k + 1) <= 2 ^ Zdigits2 (Zpos p))
    by (apply Z.pow_le_mono_r; lia).
  rewrite Z.pow_add_r in * by lia. lia.
Qed.

Lemma shr_1_m r : 0 <= shr_m r -> shr_m (shr_1 r) = shr_m r / 2.
Proof.
  destruct r as [m rb sb]. simpl shr_m. intros H.
  destruct m as [|[p|p|]|p]; simpl shr_m; try lia; try reflexivity.
  - rewrite Pos2Z.inj_xI. apply (Z.div_unique_pos _ _ _ 1); lia.
  - rewrite Pos2Z.inj_xO. apply (Z.div_unique_pos _ _ _ 0); lia.
Qed.

Lemma pow2_xO p : 2 ^ Zpos p~0 = 2 ^ Zpos p * 2 ^ Zpos p.
Proof.
  replace (Zpos p~0) with (Zpos p + Zpos p) by lia.
  now rewrite Z.pow_add_r by lia.
Qed.

Lemma pow2_xI p : 2 ^ Zpos p~1 = 2 * (2 ^ Zpos p * 2 ^ Zpos p).
Proof.
  replace (Zpos p~1) with (1 + (Zpos p + Zpos p)) by lia.
  now rewrite !Z.pow_add_r, Z.pow_1_r by lia.
Qed.

Lemma iter_shr_1_m p : forall r,
  0 <= shr_m r -> shr_m (iter_pos shr_1 p r) = shr_m r / 2 ^ Zpos p.
Proof.
  induction p as [p IH|p IH|]; intros r H; simpl iter_pos.
  - assert (H1 : 0 <= shr_m (shr_1 r))
      by (rewrite shr_1_m by assumption; apply Z.div_pos; lia).
    assert (H2 : 0 <= shr_m (iter_pos shr_1 p (shr_1 r)))
      by (rewrite IH by assumption; apply Z.div_pos; lia).
    rewrite (IH _ H2), (IH _ H1), shr_1_m by assumption.
    rewrite !Z.div_div by lia.
    now rewrite pow2_xI.
  - assert (H2 : 0 <= shr_m (iter_pos shr_1 p r))
      by (rewrite IH by assumption; apply Z.div_pos; lia).
    rewrite (IH _ H2), (IH _ H) by assumption.
    rewrite !Z.div_div by lia.
    now rewrite pow2_xO.
  - now rewrite shr_1_m.
Qed.

Lemma shr_record_of_loc_m m l : shr_m (shr_record_of_loc m l) = m.
Proof. destruct l as [|[ | | ]]; reflexivity. Qed.

(** A right shift to the canonical exponent: the exponent grows by the
    shift and the mantissa is divided by the matching power of two. *)
Lemma shr_fexp_spec m e l :
  0 <= m ->
  let n := Z.max 0 (fexp prec emax (Zdigits2 m + e) - e) in
  snd (shr_fexp prec emax m e l) = e + n /\
  shr_m (fst (shr_fexp prec emax m e l)) = m / 2 ^ n.
Proof.
  intros Hm n. unfold shr_fexp, shr. fold (Zdigits2 m).
  subst n. set (d := fexp prec emax (Zdigits2 m + e) - e).
  destruct d as [|p|p] eqn:E; simpl fst; simpl snd.
  - rewrite shr_record_of_loc_m, Z.div_1_r. lia.
  - rewrite iter_shr_1_m by (rewrite shr_record_of_loc_m; exact Hm).
    rewrite shr_record_of_loc_m.
    replace (Z.max 0 (Zpos p)) with (Zpos p) by lia. split; lia.
  - rewrite shr_record_of_loc_m.
    replace (Z.max 0 (Zneg p)) with 0 by lia.
    rewrite Z.div_1_r. lia.
Qed.

Lemma round_nearest_even_bounds m l :
  m <= round_nearest_even m l <= m + 1.
Proof.
  destruct l as [|[ | | ]]; simpl; try lia.
  destruct (Z.even m); lia.
Qed.

Lemma div_pow2_lt m D n :
  0 <= m < 2 ^ D -> 0 <= D -> 0 <= n -> m / 2 ^ n < 2 ^ Z.max (D - n) 0.
Proof.
  intros [H0 Hm] HD Hn.
  destruct (Z_le_gt_dec n D) as [L|G].
  - replace (Z.max (D - n) 0) with (D - n) by lia.
    apply Z.div_lt_upper_bound; [lia |].
    rewrite <- Z.pow_add_r by lia. now replace (n + (D - n)) with D by lia.
  - replace (Z.max (D - n) 0) with 0 by lia.
    rewrite Z.div_small; [simpl; lia |].
    split; [lia |].
    assert (2 ^ D <= 2 ^ n) by (apply Z.pow_le_mono_r; lia). lia.
Qed.

(** The product of two positive floats is a finite non-negative float as
    soon as its exact value is far below the overflow threshold. *)
Lemma binary_round_aux_nonneg_finite mx ex :
  0 < mx -> ex <= emax - prec -> Zdigits2 mx + ex < emax ->
  nonneg_finite (binary_round_aux prec emax false mx ex loc_Exact).
Proof.
  intros Hmx Hex Hd. unfold binary_round_aux.
  destruct (shr_fexp prec emax mx ex loc_Exact) as [r1 e1] eqn:E1.
  pose proof (shr_fexp_spec mx ex loc_Exact ltac:(lia)) as [S1 M1].
  rewrite E1 in S1, M1. simpl in S1, M1.
  set (n1 := Z.max 0 (fexp prec emax (Zdigits2 mx + ex) - ex)) in *.
  set (m1 := round_nearest_even (shr_m r1) (loc_of_shr_record r1)).
  pose proof (round_nearest_even_bounds (shr_m r1) (loc_of_shr_record r1)) as B1.
  fold m1 in B1.
  assert (Hr1 : 0 <= shr_m r1) by (rewrite M1; apply Z.div_pos; lia).
  destruct (shr_fexp prec emax m1 e1 loc_Exact) as [r2 e2] eqn:E2.
  pose proof (shr_fexp_spec m1 e1 loc_Exact ltac:(lia)) as [S2 M2].
  rewrite E2 in S2, M2. simpl in S2, M2.
  assert (Hr2 : 0 <= shr_m r2) by (rewrite M2; apply Z.div_pos; lia).
  pose proof (Zdigits2_gt mx ltac:(lia)) as G.
  pose proof (Zdigits2_nonneg mx) as N.
  assert (K : shr_m r1 < 2 ^ Z.max (Zdigits2 mx - n1) 0).
  { rewrite M1. apply div_pow2_lt; lia. }
  assert (D1 : Zdigits2 m1 <= Z.max (Zdigits2 mx - n1) 0 + 1).
  { apply Zdigits2_upper; [lia |]. split; [lia |].
    rewrite Z.pow_add_r by lia.
    assert (0 < 2 ^ Z.max (Zdigits2 mx - n1) 0) by (apply Z.pow_pos_nonneg; lia).
    lia. }
  assert (Hmx1 : 1 <= Zdigits2 mx).
  { destruct mx; simpl; lia. }
  assert (He2 : e2 <= emax - prec).
  { rewrite S2, S1. subst n1. unfold fexp, emin in *. lia. }
  destruct (shr_m r2) as [|p|p]; simpl; auto; try lia.
  apply Z.leb_le in He2. rewrite He2. exact I.
Qed.
End RoundingBounds.

(** ** The duty converter is total *)

Lemma literal_655_35 :
  literal 53 1024 65535 100 = S754_finite false 5764519562104013 (-43).
Proof. vm_compute. reflexivity. Qed.

Lemma Zdigits2_mul p q :
  Zdigits2 (Zpos (p * q)) <= Zdigits2 (Zpos p) + Zdigits2 (Zpos q).
Proof.
  pose proof (Zdigits2_gt (Zpos p) ltac:(lia)) as Gp.
  pose proof (Zdigits2_gt (Zpos q) ltac:(lia)) as Gq.
  pose proof (Zdigits2_nonneg (Zpos p)). pose proof (Zdigits2_nonneg (Zpos q)).
  apply Zdigits2_upper; [lia |].
  rewrite Z.pow_add_r, Pos2Z.inj_mul by lia. nia.
Qed.

Lemma Zcompare_float_pos z m e c :
  Zcompare_float z (S754_finite false m e) = Some c ->
  (e < 0 /\ (z * 2 ^ (- e) ?= Zpos m) = c) \/
  (0 <= e /\ (z ?= Zpos m * 2 ^ e) = c).
Proof.
  unfold Zcompare_float. intros H.
  destruct e as [|k|k]; [right | right | left];
    (split; [lia | injection H; intro H'; exact H']).
Qed.

(** A positive float below 100 has at most seven bits before the point. *)
Lemma below_100_digits m e :
  Zcompare_float 100 (S754_finite false m e) = Some Gt ->
  Zdigits2 (Zpos m) + e <= 7.
Proof.
  intros H. apply Zcompare_float_pos in H.
  pose proof (Zdigits2_le_pos m) as U.
  pose proof (Zdigits2_nonneg (Zpos m)) as N.
  destruct (Z_le_gt_dec (Zdigits2 (Zpos m) + e) 7) as [L|G]; [exact L | exfalso].
  destruct H as [[He H]|[He H]]; apply Z.compare_gt_iff in H.
  - assert (2 ^ (8 + - e) <= 2 ^ Zdigits2 (Zpos m)) by (apply Z.pow_le_mono_r; lia).
    rewrite Z.pow_add_r in * by lia.
    change (2 ^ 8) with 256 in *.
    assert (0 < 2 ^ (- e)) by (apply Z.pow_pos_nonneg; lia). nia.
  - assert (2 ^ 8 <= 2 ^ (Zdigits2 (Zpos m) + e)) by (apply Z.pow_le_mono_r; lia).
    rewrite Z.pow_add_r in * by lia.
    change (2 ^ 8) with 256 in *.
    assert (0 < 2 ^ e) by (apply Z.pow_pos_nonneg; lia). nia.
Qed.

Lemma round_half_even_nonneg n d : 0 <= n -> 0 < d -> 0 <= round_half_even n d.
Proof.
  intros Hn Hd. unfold round_half_even.
  assert (0 <= n / d) by (apply Z.div_pos; lia).
  destruct (2 * (n mod d) ?= d); try lia.
  destruct (Z.even _); lia.
Qed.

Lemma float_to_Z_nearest_nonneg f :
  nonneg_finite f -> exists a, float_to_Z_nearest f = Ok a /\ 0 <= a.
Proof.
  destruct f as [[|]|s| |[|] m e]; simpl nonneg_finite; try contradiction; intros _.
  - exists 0. split; [reflexivity | lia].
  - unfold float_to_Z_nearest. eexists. split; [reflexivity |].
    destruct e as [|k|k].
    + change (2 ^ 0) with 1. lia.
    + assert (0 < 2 ^ Zpos k) by (apply Z.pow_pos_nonneg; lia). lia.
    + apply round_half_even_nonneg; [lia | apply Z.pow_pos_nonneg; lia].
Qed.

Lemma scaled_float_below_100 m e :
  Zcompare_float 100 (S754_finite false m e) = Some Gt ->
  exists a, PyNum.round (mul 53 1024 (Float (S754_finite false m e))
                            (Float (literal 53 1024 65535 100))) = Ok a /\ 0 <= a.
Proof.
  intros H. apply below_100_digits in H.
  rewrite literal_655_35. unfold mul, to_float, PyNum.round, SFmul.
  apply float_to_Z_nearest_nonneg.
  pose proof (Zdigits2_mul m 5764519562104013) as D.
  change (Zdigits2 (Zpos 5764519562104013)) with 53 in D.
  assert (1 <= Zdigits2 (Zpos m)) by (simpl; lia).
  apply binary_round_aux_nonneg_finite; lia.
Qed.

Lemma ltb_Float_Int f z : ltb (Float f) (Int z) = true -> Zcompare_float z f = Some Gt.
Proof.
  unfold ltb, compare. destruct (Zcompare_float z f) as [[ | | ]|]; simpl; congruence.
Qed.

Lemma gtb_Float_Int f z : gtb (Float f) (Int z) = true -> Zcompare_float z f = Some Lt.
Proof.
  unfold gtb, compare. destruct (Zcompare_float z f) as [[ | | ]|]; simpl; congruence.
Qed.

(** [percent_to_duty] returns on every number, an integer duty in
    [0, 65535]. *)
Lemma percent_to_duty_total p :
  exists d, percent_to_duty p = Ok d /\ 0 <= d <= 65535.
Proof.
  destruct p as [z|f].
  - exists (percent_to_duty_spec z).
    split; [apply percent_to_duty_Int | apply percent_to_duty_spec_range].
  - unfold percent_to_duty, percent_to_duty_in.
    unfold PyNum.min at 1.
    destruct (ltb (PyNum.abs (Float f)) (Int 100)) eqn:L.
    + unfold PyNum.max.
      destruct (gtb (PyNum.abs (Float f)) (Int 0)) eqn:G.
      * apply ltb_Float_Int in L. apply gtb_Float_Int in G.
        destruct f as [s|s| |s m e]; try discriminate.
        cbn [PyNum.abs SFabs] in *.
        destruct (scaled_float_below_100 m e L) as (a & Ha & Ha0).
        rewrite Ha. exists (Z.min a 65535). split; [reflexivity | lia].
      * exists 0. split; [vm_compute; reflexivity | lia].
    + exists 65535. split; [vm_compute; reflexivity | lia].
Qed.

(** ** Basic facts on the comparisons *)

Lemma compare_Int_l a x : compare (Int a) x = option_map CompOpp (compare x (Int a)).
Proof.
  destruct x as [b|f]; simpl.
  - now rewrite Z.compare_antisym.
  - destruct (Zcompare_float a f) as [[ | | ]|]; reflexivity.
Qed.

Lemma gtb_ltb_Int x a : gtb x (Int a) = ltb (Int a) x.
Proof.
  unfold gtb, ltb. rewrite (compare_Int_l a x).
  destruct (compare x (Int a)) as [[ | | ]|]; reflexivity.
Qed.

Lemma ltb_leb x y : ltb x y = true -> leb x y = true.
Proof. unfold ltb, leb. destruct (compare x y) as [[ | | ]|]; congruence. Qed.

(** ** The speed range and the clamp *)

Lemma clamp_Int z : clamp (Int z) = Int (clampZ z).
Proof. unfold clamp. now rewrite min_Int, max_Int. Qed.

Lemma in_range_Int z : in_range (Int z) <-> -100 <= z <= 100.
Proof.
  unfold in_range, leb, compare.
  destruct (Z.compare_spec (-100) z), (Z.compare_spec z 100);
    split; intros; try lia; intuition congruence.
Qed.

Lemma clamp_in_range sp : in_range (clamp sp).
Proof.
  unfold clamp, PyNum.min.
  destruct (ltb sp (Int 100)) eqn:L.
  - unfold PyNum.max. destruct (gtb sp (Int (-100))) eqn:G.
    + split; [| now apply ltb_leb].
      rewrite gtb_ltb_Int in G. now apply ltb_leb.
    + apply in_range_Int. lia.
  - rewrite max_Int. apply in_range_Int. lia.
Qed.

Lemma clampZ_id z : -100 <= z <= 100 -> clampZ z = z.
Proof. unfold clampZ. lia. Qed.

(** ** What each method does to the instance *)

Lemma brake_eq s : brake s = (Ok tt, brake_state s).
Proof. reflexivity. Qed.

Lemma coast_eq s : coast s = (Ok tt, coast_state s).
Proof. reflexivity. Qed.

Lemma set_forward_eq s : set_forward s = (Ok tt, forward_state s).
Proof. reflexivity. Qed.

Lemma set_reverse_eq s : set_reverse s = (Ok tt, reverse_state s).
Proof. reflexivity. Qed.

Lemma brake_state_is_brake s : is_brake (brake_state s).
Proof. repeat split. Qed.

Lemma set_motor_forward sp d s :
  percent_to_duty sp = Ok d ->
  set_motor "forward" sp s = (Ok tt, set_pwm d (forward_state s)).
Proof.
  intros H. unfold set_motor.
  change (getattr_set "forward") with (Some Set_forward).
  unfold bind, lift, call0. rewrite set_forward_eq, H. reflexivity.
Qed.

Lemma set_motor_reverse sp d s :
  percent_to_duty sp = Ok d ->
  set_motor "reverse" sp s = (Ok tt, set_pwm d (reverse_state s)).
Proof.
  intros H. unfold set_motor.
  change (getattr_set "reverse") with (Some Set_reverse).
  unfold bind, lift, call0. rewrite set_reverse_eq, H. reflexivity.
Qed.

Lemma drive_None ab s : drive None ab s = (Ok (speed s), s).
Proof. reflexivity. Qed.

Lemma drive_Some sp ab s :
  exists d, percent_to_duty (PyNum.abs (clamp sp)) = Ok d /\ 0 <= d <= 65535 /\
            drive (Some sp) ab s = (Ok (clamp sp), drive_state (clamp sp) ab d s).
Proof.
  destruct (percent_to_duty_total (PyNum.abs (clamp sp))) as (d & Hd & Hr).
  exists d. split; [exact Hd | split; [exact Hr |]].
  unfold drive, drive_state. fold (clamp sp).
  unfold bind at 1. unfold bind at 1. unfold modify at 1.
  destruct (neb (clamp sp) (Int 0)).
  - destruct (ltb (clamp sp) (Int 0)).
    + now rewrite (set_motor_reverse _ d).
    + now rewrite (set_motor_forward _ d).
  - destruct ab; reflexivity.
Qed.

Lemma drive_Int z ab s :
  drive (Some (Int z)) ab s =
  (Ok (Int (clampZ z)),
   drive_state (Int (clampZ z)) ab (percent_to_duty_spec (clampZ z)) s).
Proof.
  destruct (drive_Some (Int z) ab s) as (d & Hd & _ & H).
  rewrite clamp_Int in *. simpl PyNum.abs in Hd.
  rewrite percent_to_duty_Int in Hd.
  assert (E : percent_to_duty_spec (Z.abs (clampZ z)) = percent_to_duty_spec (clampZ z)).
  { unfold percent_to_duty_spec. f_equal. f_equal. lia. }
  rewrite E in Hd. injection Hd as <-. exact H.
Qed.

(** ** One resumption of the generator *)

Lemma statuses_app l1 l2 : statuses (l1 ++ l2) = statuses l1 ++ statuses l2.
Proof.
  induction l1 as [|e l1 IH]; simpl; [reflexivity |].
  destruct e; simpl; now rewrite IH.
Qed.

Lemma bind_eq {A B} (c : M A) (k : A -> M B) s :
  bind c k s = match c s with
               | (Ok a, s') => k a s'
               | (Raise e, s') => (Raise e, s')
               end.
Proof. reflexivity. Qed.

Lemma status_call b s :
  match status_of b with
  | Some f => c2 <- drive None true ;; f c2
  | None => ret tt
  end s = (Ok tt, notify b (speed s) s).
Proof. destruct b; reflexivity. Qed.

Lemma drive_ramp_next_done t b s :
  neb (speed s) t = false ->
  drive_ramp_next t (status_of b) s = (Ok None, notify b (speed s) s).
Proof.
  intros H. unfold drive_ramp_next.
  rewrite bind_eq, drive_None, H.
  rewrite bind_eq, status_call. reflexivity.
Qed.

Lemma speed_notify b v s : speed (notify b v s) = speed s.
Proof. destruct b; reflexivity. Qed.

Lemma drive_ramp_next_yield t b s :
  neb (speed s) t = true ->
  let change := if gtb (speed s) t then Int (-1) else Int 1 in
  let v := clamp (add 53 1024 (speed s) change) in
  exists d, percent_to_duty (PyNum.abs v) = Ok d /\ 0 <= d <= 65535 /\
    drive_ramp_next t (status_of b) s =
    (Ok (Some v), drive_state v true d (notify b (speed s) s)).
Proof.
  intros H change v.
  destruct (drive_Some (add 53 1024 (speed s) change) true (notify b (speed s) s))
    as (d & Hd & Hr & E).
  exists d. split; [exact Hd | split; [exact Hr |]].
  unfold drive_ramp_next.
  rewrite bind_eq, drive_None, H.
  rewrite bind_eq, drive_None.
  rewrite bind_eq, status_call.
  rewrite bind_eq, drive_None, speed_notify.
  rewrite bind_eq. fold change. rewrite E. reflexivity.
Qed.

(** *** Fields a step leaves alone *)

Lemma irq_drive_state p ab d s : irq (drive_state p ab d s) = irq s.
Proof.
  unfold drive_state. destruct (neb p (Int 0)); [destruct (ltb p (Int 0)) | destruct ab];
    reflexivity.
Qed.

Lemma stby_drive_state p ab d s : stby (drive_state p ab d s) = stby s.
Proof.
  unfold drive_state. destruct (neb p (Int 0)); [destruct (ltb p (Int 0)) | destruct ab];
    reflexivity.
Qed.

Lemma speed_drive_state p ab d s : speed (drive_state p ab d s) = p.
Proof.
  unfold drive_state. destruct (neb p (Int 0)); [destruct (ltb p (Int 0)) | destruct ab];
    reflexivity.
Qed.

Lemma statuses_drive_state p ab d s :
  statuses (log (drive_state p ab d s)) = statuses (log s).
Proof.
  unfold drive_state. destruct (neb p (Int 0)); [destruct (ltb p (Int 0)) | destruct ab];
    simpl; rewrite !statuses_app; simpl; now rewrite !app_nil_r.
Qed.

Lemma irq_notify b v s : irq (notify b v s) = irq s.
Proof. destruct b; reflexivity. Qed.

Lemma stby_notify b v s : stby (notify b v s) = stby s.
Proof. destruct b; reflexivity. Qed.

Lemma statuses_notify b v s :
  statuses (log (notify b v s)) = statuses (log s) ++ (if b then [v] else []).
Proof.
  destruct b; simpl; [now rewrite statuses_app | now rewrite app_nil_r].
Qed.

(** *** On integer speeds *)

Lemma neb_Int a b : neb (Int a) (Int b) = negb (a =? b).
Proof.
  unfold neb, eqb, compare. destruct (Z.compare_spec a b), (Z.eqb_spec a b);
    simpl; try reflexivity; lia.
Qed.

Lemma gtb_Int a b : gtb (Int a) (Int b) = (a >? b).
Proof. unfold gtb, compare, Z.gtb. now destruct (a ?= b). Qed.

Lemma drive_ramp_next_Int c t b s :
  speed s = Int c -> c <> t -> -100 <= c <= 100 -> -100 <= t <= 100 ->
  drive_ramp_next (Int t) (status_of b) s =
  (Ok (Some (Int (step_toward c t))),
   drive_state (Int (step_toward c t)) true (percent_to_duty_spec (step_toward c t))
               (notify b (Int c) s)).
Proof.
  intros Hs Hne Hc Ht.
  assert (N : neb (speed s) (Int t) = true).
  { rewrite Hs, neb_Int. destruct (Z.eqb_spec c t); [contradiction | reflexivity]. }
  destruct (drive_ramp_next_yield (Int t) b s N) as (d & Hd & _ & E).
  rewrite Hs, gtb_Int in *.
  assert (V : clamp (add 53 1024 (Int c) (if c >? t then Int (-1) else Int 1))
              = Int (step_toward c t)).
  { unfold step_toward. destruct (Z.gtb_spec c t); simpl add; rewrite clamp_Int;
      f_equal; unfold clampZ; lia. }
  rewrite V in *. simpl PyNum.abs in Hd. rewrite percent_to_duty_Int in Hd.
  assert (D : d = percent_to_duty_spec (step_toward c t)).
  { injection Hd as <-. unfold percent_to_duty_spec. f_equal. f_equal. lia. }
  now rewrite E, D.
Qed.

Lemma drive_ramp_next_Int_done t b s :
  speed s = Int t ->
  drive_ramp_next (Int t) (status_of b) s = (Ok None, notify b (Int t) s).
Proof.
  intros Hs. rewrite drive_ramp_next_done; rewrite Hs; [reflexivity |].
  rewrite neb_Int, Z.eqb_refl. reflexivity.
Qed.

(** A resumption never raises, it yields exactly when the stored speed
    differs from the target, and it leaves the environment alone. *)
Lemma drive_ramp_next_ok t b s :
  exists o s', drive_ramp_next t (status_of b) s = (Ok o, s') /\
               (o = None <-> neb (speed s) t = false) /\
               irq s' = irq s /\ stby s' = stby s /\
               (in_range (speed s) -> in_range (speed s')).
Proof.
  destruct (neb (speed s) t) eqn:H.
  - destruct (drive_ramp_next_yield t b s H) as (d & _ & _ & E).
    do 2 eexists. split; [exact E |].
    rewrite irq_drive_state, irq_notify, stby_drive_state, stby_notify.
    rewrite speed_drive_state.
    split; [split; discriminate |].
    split; [reflexivity |]. split; [reflexivity |].
    intros _. apply clamp_in_range.
  - do 2 eexists. split; [now apply drive_ramp_next_done |].
    rewrite irq_notify, stby_notify, speed_notify. tauto.
Qed.

(** ** The ramp on integer speeds *)

Lemma ramp_steps_nil t : ramp_steps t t = [].
Proof. unfold ramp_steps. now rewrite Z.sub_diag. Qed.

Lemma ramp_steps_cons c t :
  c <> t -> ramp_steps c t = step_toward c t :: ramp_steps (step_toward c t) t.
Proof.
  intros Hne. unfold ramp_steps, step_toward.
  destruct (Z.to_nat (Z.abs (t - c))) as [|n] eqn:En; [lia |].
  destruct (Z.gtb_spec c t) as [G|G].
  - replace (Z.to_nat (Z.abs (t - (c - 1)))) with n by lia.
    rewrite <- cons_seq. cbn [map]. rewrite <- seq_shift, map_map. f_equal; try lia.
    apply map_ext_in. intros i Hi. apply in_seq in Hi.
    destruct (Z.gtb_spec (c - 1) t); lia.
  - replace (Z.to_nat (Z.abs (t - (c + 1)))) with n by lia.
    rewrite <- cons_seq. cbn [map]. rewrite <- seq_shift, map_map. f_equal; try lia.
    apply map_ext_in. intros i Hi. apply in_seq in Hi.
    destruct (Z.gtb_spec (c + 1) t); lia.
Qed.

Lemma for_ramp_S fuel t sf body s :
  for_ramp (S fuel) t sf body s =
  match drive_ramp_next t sf s with
  | (Raise e, s1) => Some (Raise e, s1)
  | (Ok None, s1) => Some (Ok [], s1)
  | (Ok (Some v), s1) =>
      match body s1 with
      | (Raise e, s2) => Some (Raise e, s2)
      | (Ok _, s2) =>
          match for_ramp fuel t sf body s2 with
          | Some (Ok vs, s3) => Some (Ok (v :: vs), s3)
          | r => r
          end
      end
  end.
Proof. reflexivity. Qed.

Section IntegerRamp.
(** The loop body runs between two steps.  It is quiet when, as long as
    the environment satisfies [P], it returns and touches neither the
    speed nor the observer. *)
Variable body : M unit.
Variable P : option nat -> Prop.
Hypothesis body_quiet : forall s, P (irq s) ->
  exists s', body s = (Ok tt, s') /\ P (irq s') /\ speed s' = speed s /\
             statuses (log s') = statuses (log s).

Variable t : Z.
Variable b : bool.
Hypothesis Ht : -100 <= t <= 100.

Lemma for_ramp_Int : forall n c s,
  Z.to_nat (Z.abs (t - c)) = n -> speed s = Int c -> -100 <= c <= 100 ->
  P (irq s) ->
  exists s', for_ramp (S n) (Int t) (status_of b) body s
             = Some (Ok (map Int (ramp_steps c t)), s') /\
             speed s' = Int t /\ P (irq s') /\
             statuses (log s') =
             statuses (log s) ++ (if b then map Int (c :: ramp_steps c t) else []).
Proof.
  induction n as [|n IH]; intros c s Hn Hs Hc HP.
  - assert (c = t) by lia. subst c.
    rewrite for_ramp_S, drive_ramp_next_Int_done by assumption.
    rewrite ramp_steps_nil. eexists. split; [reflexivity |].
    rewrite speed_notify, irq_notify, statuses_notify.
    repeat split; assumption.
  - assert (Hne : c <> t) by lia.
    rewrite for_ramp_S, (drive_ramp_next_Int c) by assumption.
    set (c' := step_toward c t).
    set (s1 := drive_state (Int c') true _ _).
    assert (Hc' : -100 <= c' <= 100 /\ Z.to_nat (Z.abs (t - c')) = n).
    { subst c'. unfold step_toward. destruct (Z.gtb_spec c t); lia. }
    destruct (body_quiet s1) as (s2 & E2 & P2 & Sp2 & St2).
    { subst s1. now rewrite irq_drive_state, irq_notify. }
    rewrite E2.
    destruct (IH c' s2) as (s3 & E3 & Sp3 & P3 & St3); try tauto.
    { rewrite Sp2. subst s1. apply speed_drive_state. }
    rewrite E3. exists s3.
    rewrite (ramp_steps_cons c t) by assumption. fold c'.
    repeat split; try assumption.
    rewrite St3, St2. subst s1.
    rewrite statuses_drive_state, statuses_notify.
    destruct b; simpl; rewrite <- app_assoc; reflexivity.
Qed.
End IntegerRamp.

Lemma ret_quiet : forall s, True ->
  exists s', ret tt s = (Ok tt, s') /\ True /\ speed s' = speed s /\
             statuses (log s') = statuses (log s).
Proof. intros s _. exists s. repeat split. Qed.

Lemma sleep_quiet e x : statuses [e] = [] -> forall s, irq s = None ->
  exists s', sleep_with e x s = (Ok tt, s') /\ irq s' = None /\ speed s' = speed s /\
             statuses (log s') = statuses (log s).
Proof.
  intros He s H. unfold sleep_with. rewrite H. eexists. split; [reflexivity |].
  simpl. rewrite statuses_app, He, app_nil_r. tauto.
Qed.

(** ** The outputs a step leaves *)

Lemma ltb_Int a b : ltb (Int a) (Int b) = (a <? b).
Proof. unfold ltb, compare, Z.ltb. now destruct (a ?= b). Qed.

Lemma hw_drive_state p ab d s :
  hw (drive_state p ab d s) =
  if neb p (Int 0) then (if ltb p (Int 0) then (false, true, d) else (true, false, d))
  else (ab, ab, 0).
Proof.
  unfold drive_state. destruct (neb p (Int 0)); [destruct (ltb p (Int 0)) | destruct ab];
    reflexivity.
Qed.

Lemma hw_drive_state_Int p ab s :
  hw (drive_state (Int p) ab (percent_to_duty_spec p) s) = drive_hw p ab.
Proof.
  rewrite hw_drive_state, neb_Int, ltb_Int. unfold drive_hw.
  destruct (Z.eqb_spec p 0); simpl; [reflexivity |].
  destruct (Z.ltb_spec p 0), (Z.ltb_spec 0 p); try reflexivity; lia.
Qed.

(** ** The loop under a pending signal *)

Section PendingSignal.
(** The delay appends [e] when it completes and raises [x] when the signal
    arrives in it. *)
Variable e : event.
Variable x : exn.
Variable b : bool.

(** With a signal pending after [k] delays, the loop ends within [k + 1]
    resumptions: by the exception of the delay, or normally with the signal
    still pending. *)
Lemma for_ramp_pending t : forall k s,
  irq s = Some k ->
  exists r s', for_ramp (S k) t (status_of b) (sleep_with e x) s = Some (r, s') /\
    ((r = Raise x /\ irq s' = None) \/
     (exists vs j, r = Ok vs /\ irq s' = Some j)).
Proof.
  induction k as [|k IH]; intros s Hk; rewrite for_ramp_S;
    destruct (drive_ramp_next_ok t b s) as (o & s1 & E1 & _ & I1 & _);
    rewrite E1; rewrite Hk in I1.
  - destruct o as [v|].
    + unfold sleep_with. rewrite I1. do 2 eexists. split; [reflexivity |].
      left. split; reflexivity.
    + do 2 eexists. split; [reflexivity |]. right. now exists [], 0%nat.
  - destruct o as [v|].
    + unfold sleep_with at 1. rewrite I1.
      destruct (IH (emit e (set_irq (Some k) s1)) eq_refl)
        as (r & s' & E & [[-> Hi]|(vs & j & -> & Hi)]); rewrite E.
      * do 2 eexists. split; [reflexivity |]. left. tauto.
      * do 2 eexists. split; [reflexivity |]. right. now exists (v :: vs), j.
    + do 2 eexists. split; [reflexivity |]. right. now exists [], (S k).
Qed.

(** On integer speeds the signal arrives in the delay after step [k + 1],
    when the ramp has more than [k] steps; the outputs are then those of
    that step. *)
Lemma for_ramp_Int_interrupted t : -100 <= t <= 100 -> forall k c s,
  irq s = Some k -> speed s = Int c -> -100 <= c <= 100 ->
  (k < Z.to_nat (Z.abs (t - c)))%nat ->
  exists s', for_ramp (S k) (Int t) (status_of b) (sleep_with e x) s
             = Some (Raise x, s') /\
             irq s' = None /\
             speed s' = Int (if c >? t then c - Z.of_nat (S k) else c + Z.of_nat (S k)) /\
             hw s' = drive_hw (if c >? t then c - Z.of_nat (S k) else c + Z.of_nat (S k))
                              true.
Proof.
  intros Ht. induction k as [|k IH]; intros c s Hk Hs Hc Hlt;
    assert (Hne : c <> t) by lia;
    rewrite for_ramp_S, (drive_ramp_next_Int c) by assumption;
    set (c' := step_toward c t);
    set (s1 := drive_state (Int c') true _ _);
    assert (I1 : irq s1 = Some _)
      by (subst s1; rewrite irq_drive_state, irq_notify; exact Hk);
    unfold sleep_with at 1; rewrite I1.
  - assert (C1 : c' = if c >? t then c - Z.of_nat 1 else c + Z.of_nat 1).
    { subst c'. unfold step_toward. destruct (c >? t); lia. }
    eexists. split; [reflexivity |]. split; [reflexivity |].
    rewrite <- C1. split.
    + simpl speed. subst s1. apply speed_drive_state.
    + change (hw (set_irq None s1)) with (hw s1). subst s1.
      apply hw_drive_state_Int.
  - assert (Hc' : -100 <= c' <= 100 /\ (k < Z.to_nat (Z.abs (t - c')))%nat
                  /\ (c' >? t) = (c >? t)).
    { subst c'. unfold step_toward.
      destruct (Z.gtb_spec c t); (split; [lia | split; [lia |]]).
      - destruct (Z.gtb_spec (c - 1) t); [reflexivity | lia].
      - destruct (Z.gtb_spec (c + 1) t); [lia | reflexivity]. }
    destruct Hc' as (R' & L' & G').
    destruct (IH c' (emit e (set_irq (Some k) s1))) as (s' & E & Hi & Hsp & Hw);
      try assumption; try reflexivity.
    { simpl. subst s1. apply speed_drive_state. }
    rewrite E. exists s'. split; [reflexivity |]. split; [exact Hi |].
    assert (C2 : (if c' >? t then c' - Z.of_nat (S k) else c' + Z.of_nat (S k))
                 = (if c >? t then c - Z.of_nat (S (S k)) else c + Z.of_nat (S (S k)))).
    { rewrite G'. subst c'. unfold step_toward. destruct (c >? t); lia. }
    rewrite <- C2. split; assumption.
Qed.
End PendingSignal.

(** ** Reachable states *)

Lemma keeps_same s s' : stby s' = stby s -> speed s' = speed s -> keeps s s'.
Proof. intros H1 H2. unfold keeps. rewrite H1, H2. tauto. Qed.

Lemma keeps_trans s1 s2 s3 : keeps s1 s2 -> keeps s2 s3 -> keeps s1 s3.
Proof. unfold keeps. tauto. Qed.

Lemma set_raw_values_keeps a b d s : keeps s (snd (set_raw_values a b d s)).
Proof. destruct a, b, d; apply keeps_same; reflexivity. Qed.

Lemma set_motor_keeps dir sp s : keeps s (snd (set_motor dir sp s)).
Proof.
  unfold set_motor.
  destruct (percent_to_duty_total sp) as (d & Hd & _).
  destruct (getattr_set dir) as [[ | | | ]|];
    unfold bind, call0, lift, raise; try rewrite set_forward_eq;
    try rewrite set_reverse_eq; cbn [set_raw_values]; try rewrite Hd;
    apply keeps_same; reflexivity.
Qed.

Lemma drive_keeps sp ab s : keeps s (snd (drive sp ab s)).
Proof.
  destruct sp as [sp|]; [| apply keeps_same; reflexivity].
  destruct (drive_Some sp ab s) as (d & _ & _ & E). rewrite E. simpl snd.
  split.
  - rewrite stby_drive_state. tauto.
  - rewrite speed_drive_state. intros _. apply clamp_in_range.
Qed.

Lemma drive_ramp_next_keeps t b s : keeps s (snd (drive_ramp_next t (status_of b) s)).
Proof.
  destruct (drive_ramp_next_ok t b s) as (o & s' & E & _ & _ & St & Sp).
  rewrite E. simpl snd. split; [rewrite St; tauto | exact Sp].
Qed.

Lemma sleep_with_keeps e x s : keeps s (snd (sleep_with e x s)).
Proof. unfold sleep_with. destruct (irq s) as [[|k]|]; apply keeps_same; reflexivity. Qed.

Lemma for_ramp_keeps t b body :
  (forall s, keeps s (snd (body s))) ->
  forall fuel s r s', for_ramp fuel t (status_of b) body s = Some (r, s') -> keeps s s'.
Proof.
  intros Hb. induction fuel as [|fuel IH]; intros s r s' H; [discriminate |].
  rewrite for_ramp_S in H.
  pose proof (drive_ramp_next_keeps t b s) as K1.
  destruct (drive_ramp_next t (status_of b) s) as [[[v|]|e] s1]; simpl snd in K1.
  - pose proof (Hb s1) as K2.
    destruct (body s1) as [[u|e] s2]; simpl snd in K2.
    + destruct (for_ramp fuel t (status_of b) body s2) as [[[vs|e] s3]|] eqn:E;
        try discriminate.
      * injection H as _ <-. eauto using keeps_trans.
      * injection H as _ <-. eauto using keeps_trans.
    + injection H as _ <-. eauto using keeps_trans.
  - injection H as _ <-. exact K1.
  - injection H as _ <-. exact K1.
Qed.

Lemma guarded_keeps loop s r s' :
  (forall r1 s1, loop s = Some (r1, s1) -> keeps s s1) ->
  guarded loop s = Some (r, s') -> keeps s s'.
Proof.
  intros Hl H. unfold guarded in H.
  destruct (loop s) as [[[vs|e] s1]|]; try discriminate.
  - injection H as _ <-. eauto.
  - specialize (Hl _ _ eq_refl).
    destruct e; injection H as _ <-; exact Hl.
Qed.

Lemma stby_value_keeps v s : keeps s (snd (stby_value v s)).
Proof.
  unfold stby_value, bind, get. destruct (stby s) eqn:E; simpl snd.
  - split; [congruence | tauto].
  - apply keeps_same; reflexivity.
Qed.

Lemma off_keeps ab s : keeps s (snd (off ab s)).
Proof.
  unfold off. rewrite bind_eq.
  assert (E : (if ab then brake else coast) s
              = (Ok tt, if ab then brake_state s else coast_state s))
    by (destruct ab; reflexivity).
  rewrite E. eapply keeps_trans; [| apply stby_value_keeps].
  destruct ab; apply keeps_same; reflexivity.
Qed.

Lemma run_keeps c s s' : run c s = Some s' -> keeps s s'.
Proof.
  destruct c; simpl run; intros H; try (injection H as <-).
  - apply set_raw_values_keeps.
  - apply keeps_same; reflexivity.
  - apply keeps_same; reflexivity.
  - apply keeps_same; reflexivity.
  - apply keeps_same; reflexivity.
  - apply set_motor_keeps.
  - apply drive_keeps.
  - apply drive_ramp_next_keeps.
  - destruct (safe_drive _ _ _ _ _) as [[r s1]|] eqn:E; [| discriminate].
    injection H as <-. unfold safe_drive in E.
    eapply guarded_keeps; [| exact E].
    intros r1 s1'. apply for_ramp_keeps. intros s0. apply sleep_with_keeps.
  - destruct (safe_drive_async _ _ _ _ _) as [[r s1]|] eqn:E; [| discriminate].
    injection H as <-. unfold safe_drive_async in E.
    eapply guarded_keeps; [| exact E].
    intros r1 s1'. apply for_ramp_keeps. intros s0. apply sleep_with_keeps.
  - apply stby_value_keeps.
  - apply off_keeps.
Qed.

Lemma init_eq stby_pin l1 l2 d i v :
  init stby_pin (blank l1 l2 d i v) =
  (Ok tt,
   brake_state (mkState l1 l2 d
                  (match stby_pin with Some _ => Some true | None => None end)
                  (Int 0)
                  (match stby_pin with Some _ => [WriteStby true] | None => [] end)
                  i)).
Proof. destruct stby_pin; reflexivity. Qed.

Lemma reachable_speed_in_range stby_pin s :
  reachable stby_pin s -> in_range (speed s).
Proof.
  induction 1 as [l1 l2 d i v|c s s' _ IH H|i s _ IH].
  - rewrite init_eq. apply in_range_Int. simpl. lia.
  - apply run_keeps in H. now apply H.
  - exact IH.
Qed.

Lemma reachable_no_stby s : reachable None s -> stby s = None.
Proof.
  induction 1 as [l1 l2 d i v|c s s' _ IH H|i s _ IH].
  - now rewrite init_eq.
  - apply run_keeps in H. now apply H.
  - exact IH.
Qed.

(** ** Direction lookup *)

Lemma getattr_set_unknown d :
  d <> "raw_values"%string -> d <> "forward"%string ->
  d <> "reverse"%string -> d <> "motor"%string ->
  getattr_set d = None.
Proof.
  intros H1 H2 H3 H4. unfold getattr_set.
  cbn [append String.eqb Ascii.eqb Bool.eqb].
  destruct (String.eqb_spec d "raw_values"); [contradiction |].
  destruct (String.eqb_spec d "forward"); [contradiction |].
  destruct (String.eqb_spec d "reverse"); [contradiction |].
  destruct (String.eqb_spec d "motor"); [contradiction |].
  reflexivity.
Qed.

(** An unknown name raises and writes nothing. *)
Lemma set_motor_unknown_direction d sp s :
  getattr_set d = None ->
  set_motor d sp s = (Raise (ValueError ("Invalid direction: " ++ d)), s).
Proof. intros H. unfold set_motor. now rewrite H. Qed.

(** [set_motor] itself is found by the lookup; calling it with no argument
    is a [TypeError], and nothing is written. *)
Lemma set_motor_motor sp s : set_motor "motor" sp s = (Raise TypeError, s).
Proof. reflexivity. Qed.

Lemma set_motor_recognised sp s :
  is_ok (fst (set_motor "forward" sp s)) = true /\
  is_ok (fst (set_motor "reverse" sp s)) = true.
Proof.
  destruct (percent_to_duty_total sp) as (d & Hd & _).
  now rewrite (set_motor_forward sp d), (set_motor_reverse sp d).
Qed.

(** ** The events a computation appends to the trace *)

Lemma skipn_length_app {A} (l1 l2 : list A) : skipn (List.length l1) (l1 ++ l2) = l2.
Proof. induction l1; simpl; auto. Qed.

Lemma new_events_brake s :
  new_events brake s = [WriteP1 true; WriteP2 true; WriteDuty 0].
Proof.
  unfold new_events. rewrite brake_eq. simpl.
  rewrite <- !app_assoc. apply skipn_length_app.
Qed.

(** ** A ramp step that lands on zero *)

Lemma eqb_neb a b : eqb a b = true -> neb a b = false.
Proof. unfold neb. now intros ->. Qed.

Lemma drive_ramp_next_to_zero t b s :
  neb (speed s) t = true -> eqb (ramp_step_value t s) (Int 0) = true ->
  drive_ramp_next t (status_of b) s =
  (Ok (Some (ramp_step_value t s)),
   brake_state (set_speed (ramp_step_value t s) (notify b (speed s) s))).
Proof.
  intros N Z0. apply eqb_neb in Z0.
  destruct (drive_ramp_next_yield t b s N) as (d & _ & _ & E).
  fold (ramp_step_value t s) in E. rewrite E.
  unfold drive_state. now rewrite Z0.
Qed.

Lemma ramp_step_value_Int c t s :
  speed s = Int c -> ramp_step_value (Int t) s = Int (clampZ (step_toward c t)).
Proof.
  intros Hs. unfold ramp_step_value, step_toward. rewrite Hs, gtb_Int.
  destruct (c >? t); simpl add; now rewrite clamp_Int.
Qed.

(** ** The progression of a ramp *)

Lemma ramp_steps_length c t : List.length (ramp_steps c t) = Z.to_nat (Z.abs (t - c)).
Proof. unfold ramp_steps. now rewrite length_map, length_seq. Qed.

Lemma ramp_steps_nth c t i :
  (i < Z.to_nat (Z.abs (t - c)))%nat ->
  nth i (ramp_steps c t) 0 =
  if c >? t then c - Z.of_nat (S i) else c + Z.of_nat (S i).
Proof.
  intros Hi. unfold ramp_steps.
  set (f := fun i0 : nat => if c >? t then c - Z.of_nat (S i0) else c + Z.of_nat (S i0)).
  rewrite (nth_indep _ 0 (f O)) by (now rewrite length_map, length_seq).
  rewrite map_nth, seq_nth by assumption. reflexivity.
Qed.

Lemma ramp_steps_unit c t i :
  (i < Z.to_nat (Z.abs (t - c)))%nat ->
  Z.abs (nth i (ramp_steps c t) 0 - nth i (c :: ramp_steps c t) 0) = 1.
Proof.
  intros Hi. rewrite ramp_steps_nth by assumption.
  destruct i as [|j]; cbn [nth].
  - destruct (c >? t); lia.
  - rewrite ramp_steps_nth by lia. destruct (c >? t); lia.
Qed.

Lemma ramp_steps_between c t x :
  In x (ramp_steps c t) -> Z.min c t <= x <= Z.max c t /\ x <> c.
Proof.
  unfold ramp_steps. intros H. apply in_map_iff in H as (i & <- & Hi).
  apply in_seq in Hi. destruct (Z.gtb_spec c t); lia.
Qed.

(** ** The calls of the observer *)





(** ** The clamp inside the range *)

Lemma SFcompare_refl_finite s m e :
  SFcompare (S754_finite s m e) (S754_finite s m e) = Some Eq.
Proof.
  simpl. rewrite Z.compare_refl, Pos.compare_cont_refl. now destruct s.
Qed.

(** Within the range, the clamp returns a number equal to its argument
    (the [int] bound itself when the argument is a float equal to it). *)
Lemma clamp_in_range_eqb sp : in_range sp -> eqb (clamp sp) sp = true.
Proof.
  intros [Lo Hi]. unfold clamp, PyNum.min.
  destruct (ltb sp (Int 100)) eqn:L.
  - unfold PyNum.max. rewrite gtb_ltb_Int.
    destruct (ltb (Int (-100)) sp) eqn:G.
    + destruct sp as [z|f].
      * unfold eqb, compare. now rewrite Z.compare_refl.
      * unfold eqb, compare.
        destruct f as [[|]|[|]| |sg m e]; try reflexivity; try discriminate.
        now rewrite SFcompare_refl_finite.
    + unfold leb in Lo. unfold ltb in G. unfold eqb.
      destruct (compare (Int (-100)) sp) as [[ | | ]|]; congruence.
  - rewrite max_Int. change (Z.max (-100) 100) with 100.
    unfold eqb. rewrite compare_Int_l.
    unfold leb in Hi. unfold ltb in L.
    destruct (compare sp (Int 100)) as [[ | | ]|]; simpl; congruence.
Qed.

(** * The claims *)

(** C1, at the input where the code departs from it.  The direction token
    ["raw_values"] is not one of the two recognised values, yet
    [set_motor("raw_values", 50)] raises nothing and writes the duty 32768
    to the PWM channel: the name [set_raw_values] resolves to a method of
    the class, which is then called with its defaults. *)
Theorem set_motor_raw_values_is_accepted s :
  set_motor "raw_values" (Int 50) s = (Ok tt, set_pwm 32768 s) /\
  new_events (set_motor "raw_values" (Int 50)) s = [WriteDuty 32768].
Proof.
  assert (E : set_motor "raw_values" (Int 50) s = (Ok tt, set_pwm 32768 s)).
  { unfold set_motor.
    change (getattr_set "raw_values") with (Some Set_raw_values).
    unfold bind, lift, call0.
    change (set_raw_values None None None s) with (Ok tt, s).
    cbv beta iota. rewrite percent_to_duty_Int. reflexivity. }
  split; [exact E |].
  unfold new_events. rewrite E. simpl. apply skipn_length_app.
Qed.

(** C2 fails on the code: in the ramp from 10 to -3, the tenth step
    reaches 0 (which is not the target) and its hardware writes are those of
    [brake()]. *)
Lemma ramp_10_to_m3_brakes_at_zero :
  speed at_speed_1 = Int 1 /\
  fst (drive_ramp_next (Int (-3)) None at_speed_1) = Ok (Some (Int 0)) /\
  new_events (drive_ramp_next (Int (-3)) None) at_speed_1 = new_events brake at_speed_1 /\
  is_brake (snd (drive_ramp_next (Int (-3)) None at_speed_1)).
Proof. vm_compute. repeat split. Qed.

(** C2, amended.  A ramp step whose value is 0, whether or not 0 is the
    target, is not an ordinary step: it is [drive(0)] with the default
    [auto_brake], so it stores the zero and runs [brake()], never
    [coast()].  Brake or coast on zero applies to every [drive] call whose
    clamped speed is 0, made directly or by a ramp step: [brake()] when
    [auto_brake] is true and [coast()] when it is false; and to no [drive]
    call whose clamped speed is not 0, which asserts exactly one of the two
    lines.  Between integer speeds of the range the step from [c] lands on
    0 exactly when [c] is one unit away from 0 on the far side of the
    target. *)
Theorem ramp_step_to_zero_brakes :
  (forall t b s,
      neb (speed s) t = true -> eqb (ramp_step_value t s) (Int 0) = true ->
      drive_ramp_next t (status_of b) s =
        (Ok (Some (ramp_step_value t s)),
         brake_state (set_speed (ramp_step_value t s) (notify b (speed s) s))) /\
      is_brake (snd (drive_ramp_next t (status_of b) s)) /\
      hw (snd (drive_ramp_next t (status_of b) s)) <> (false, false, 0) /\
      new_events (drive_ramp_next t (status_of b)) s =
        (if b then [Status (speed s)] else []) ++ new_events brake s) /\
  (forall sp ab s,
      eqb (clamp sp) (Int 0) = true ->
      drive (Some sp) ab s =
        (Ok (clamp sp),
         if ab then brake_state (set_speed (clamp sp) s)
         else coast_state (set_speed (clamp sp) s)) /\
      new_events (drive (Some sp) ab) s
      = new_events (if ab then brake else coast) s /\
      hw (snd (drive (Some sp) ab s)) = (ab, ab, 0)) /\
  (forall sp ab s,
      neb (clamp sp) (Int 0) = true ->
      exists line1 d,
        fst (drive (Some sp) ab s) = Ok (clamp sp) /\
        new_events (drive (Some sp) ab) s
        = [WriteP1 line1; WriteP2 (negb line1); WriteDuty d] /\
        hw (snd (drive (Some sp) ab s)) = (line1, negb line1, d)) /\
  (forall c t s,
      speed s = Int c -> -100 <= c <= 100 -> -100 <= t <= 100 -> c <> t ->
      (eqb (ramp_step_value (Int t) s) (Int 0) = true <-> step_toward c t = 0) /\
      (step_toward c t = 0 <-> (c = 1 /\ t < 1) \/ (c = -1 /\ -1 < t))).
Proof.
  split; [| split; [| split]].
  - intros t b s N Z0.
    pose proof (drive_ramp_next_to_zero t b s N Z0) as E.
    split; [exact E |]. rewrite E.
    split; [apply brake_state_is_brake |]. split; [discriminate |].
    rewrite new_events_brake. unfold new_events. rewrite E.
    destruct b; simpl; rewrite <- !app_assoc; apply skipn_length_app.
  - intros sp ab s Z0. apply eqb_neb in Z0.
    destruct (drive_Some sp ab s) as (d & _ & _ & E).
    unfold drive_state in E. rewrite Z0 in E.
    assert (E' : drive (Some sp) ab s =
                 (Ok (clamp sp),
                  if ab then brake_state (set_speed (clamp sp) s)
                  else coast_state (set_speed (clamp sp) s)))
      by (rewrite E; now destruct ab).
    split; [exact E' |].
    unfold new_events. rewrite E'.
    destruct ab; simpl; (split; [| reflexivity]);
      rewrite <- !app_assoc; now rewrite !skipn_length_app.
  - intros sp ab s N.
    destruct (drive_Some sp ab s) as (d & _ & _ & E).
    unfold drive_state in E. rewrite N in E.
    exists (negb (ltb (clamp sp) (Int 0))), d.
    unfold new_events. rewrite E.
    destruct (ltb (clamp sp) (Int 0)); simpl;
      (split; [reflexivity |]); (split; [| reflexivity]);
      rewrite <- !app_assoc; apply skipn_length_app.
  - intros c t s Hs Hc Ht Hne.
    assert (R : -100 <= step_toward c t <= 100)
      by (unfold step_toward; destruct (Z.gtb_spec c t); lia).
    rewrite (ramp_step_value_Int c t s Hs), (clampZ_id _ R).
    unfold eqb, compare. split.
    + destruct (Z.compare_spec (step_toward c t) 0); split; intros; try lia;
        congruence.
    + unfold step_toward. destruct (Z.gtb_spec c t); lia.
Qed.

Lemma ramp_step_to_zero_brakes_witness :
  neb (speed at_speed_1) (Int (-3)) = true /\
  eqb (ramp_step_value (Int (-3)) at_speed_1) (Int 0) = true /\
  is_brake (snd (drive_ramp_next (Int (-3)) (status_of true) at_speed_1)).
Proof.
  assert (H1 : neb (speed at_speed_1) (Int (-3)) = true) by (vm_compute; reflexivity).
  assert (H2 : eqb (ramp_step_value (Int (-3)) at_speed_1) (Int 0) = true)
    by (vm_compute; reflexivity).
  split; [exact H1 |]. split; [exact H2 |].
  exact (proj1 (proj2 (proj1 ramp_step_to_zero_brakes (Int (-3)) true at_speed_1 H1 H2))).
Defined.

(** C3, at an input where the code departs from it.  The target 0.5 lies in
    [-100, 100] and the stored speed is 0, but the ramp never ends: the
    speed goes 1, 0, 1, 0, ... and the loop test [!=] never fails, whatever
    the number of resumptions allowed. *)
Theorem drive_ramp_to_half_never_ends fuel b l1 l2 d i v :
  in_range (Float half) /\
  ramp_run fuel (Float half) (status_of b) (snd (init None (blank l1 l2 d i v))) = None.
Proof.
  split; [split; vm_compute; reflexivity |].
  assert (G : forall n s, speed s = Int 0 \/ speed s = Int 1 ->
              for_ramp n (Float half) (status_of b) (ret tt) s = None).
  { induction n as [|n IH]; intros s Hs; [reflexivity |].
    rewrite for_ramp_S.
    assert (N : neb (speed s) (Float half) = true)
      by (destruct Hs as [-> | ->]; vm_compute; reflexivity).
    destruct (drive_ramp_next_yield (Float half) b s N) as (d0 & _ & _ & E).
    rewrite E. unfold ret at 1. rewrite IH; [reflexivity |].
    rewrite speed_drive_state.
    destruct Hs as [-> | ->]; [right | left]; vm_compute; reflexivity. }
  unfold ramp_run. apply G. left. now rewrite init_eq.
Qed.

(** C4 fails on the code for a target outside [-100, 100]: in the ramp
    from 99 to 101 the first step yields 100 and so does the second, no
    unit away from the speed stored before it and short of the target, which
    the ramp is still not at after a thousand resumptions. *)
Lemma ramp_99_to_101_repeats_100 :
  speed at_speed_99 = Int 99 /\
  fst (drive_ramp_next (Int 101) None at_speed_99) = Ok (Some (Int 100)) /\
  speed (after_steps 1 (Int 101) at_speed_99) = Int 100 /\
  fst (drive_ramp_next (Int 101) None (after_steps 1 (Int 101) at_speed_99))
  = Ok (Some (Int 100)) /\
  ramp_run 1000 (Int 101) None at_speed_99 = None.
Proof. vm_compute. repeat split. Qed.

(** C4, amended.  From an integer speed [c] to an integer target [t], both
    in the range [-100, 100] of the data model, the generator yields the
    integers from [c] towards [t] in unit steps, [c] excluded and [t]
    included, then returns with the speed at [t]: one yield per unit of
    distance, each one unit away from the speed stored before it, none
    beyond the target.  From 0 to 5 these are 1, 2, 3, 4, 5 and from 10 to
    -3 they are 9 down to -3. *)
Theorem drive_ramp_yields_unit_steps c t b s :
  speed s = Int c -> -100 <= c <= 100 -> -100 <= t <= 100 ->
  (exists s',
      ramp_run (S (Z.to_nat (Z.abs (t - c)))) (Int t) (status_of b) s
      = Some (Ok (map Int (ramp_steps c t)), s') /\
      speed s' = Int t /\
      drive_ramp_next (Int t) (status_of b) s' = (Ok None, notify b (Int t) s')) /\
  List.length (ramp_steps c t) = Z.to_nat (Z.abs (t - c)) /\
  (forall i, (i < Z.to_nat (Z.abs (t - c)))%nat ->
     nth i (ramp_steps c t) 0 =
       (if c >? t then c - Z.of_nat (S i) else c + Z.of_nat (S i)) /\
     Z.abs (nth i (ramp_steps c t) 0 - nth i (c :: ramp_steps c t) 0) = 1) /\
  (forall x, In x (ramp_steps c t) -> Z.min c t <= x <= Z.max c t) /\
  ramp_steps 0 5 = [1; 2; 3; 4; 5] /\
  ramp_steps 10 (-3) = [9; 8; 7; 6; 5; 4; 3; 2; 1; 0; -1; -2; -3].
Proof.
  intros Hs Hc Ht. split; [| split; [| split; [| split; [| split]]]].
  - destruct (for_ramp_Int (ret tt) (fun _ => True) ret_quiet t b Ht
                _ c s eq_refl Hs Hc I) as (s' & E & Sp & _ & _).
    exists s'. split; [exact E |]. split; [exact Sp |].
    now apply drive_ramp_next_Int_done.
  - apply ramp_steps_length.
  - intros i Hi. split; [now apply ramp_steps_nth | now apply ramp_steps_unit].
  - intros x Hx. now apply ramp_steps_between in Hx.
  - reflexivity.
  - reflexivity.
Qed.

Lemma drive_ramp_yields_unit_steps_witness :
  speed fresh = Int 0 /\ -100 <= 0 <= 100 /\ -100 <= 5 <= 100 /\
  exists s', ramp_run 6 (Int 5) None fresh
             = Some (Ok [Int 1; Int 2; Int 3; Int 4; Int 5], s') /\
             speed s' = Int 5.
Proof.
  assert (H1 : speed fresh = Int 0) by reflexivity.
  assert (H2 : -100 <= 0 <= 100) by lia.
  assert (H3 : -100 <= 5 <= 100) by lia.
  repeat (split; [assumption |]).
  destruct (proj1 (drive_ramp_yields_unit_steps 0 5 false fresh H1 H2 H3))
    as (s' & E & Sp & _).
  exists s'. split; [exact E | exact Sp].
Defined.

(** The second example of C4, run on the machine: from 10 to -3. *)
Example drive_ramp_10_to_m3 :
  option_map fst (ramp_run 14 (Int (-3)) None at_speed_10)
  = Some (Ok (map Int [9; 8; 7; 6; 5; 4; 3; 2; 1; 0; -1; -2; -3])).
Proof. vm_compute. reflexivity. Qed.

Lemma drive_hw_not_brake v : v <> 0 -> fst (fst (drive_hw v true)) = negb (snd (fst (drive_hw v true))).
Proof.
  intros Hv. unfold drive_hw. destruct (Z.eqb_spec v 0); [contradiction |].
  simpl. destruct (Z.ltb_spec 0 v), (Z.ltb_spec v 0); try reflexivity; lia.
Qed.

(** C5, where the code departs from it.  The blocking wrapper does what the
    claim says: interrupted in its delay, it returns with the motor in the
    Brake state.  The cooperative wrapper does not: when its task is
    cancelled in the delay after step [k + 1] of a ramp between integer
    speeds, [CancelledError] is raised at the [await], the handler, which
    names [KeyboardInterrupt] only, does not run, and the exception leaves
    the wrapper with the outputs of the last step: unless that step reached
    0, one line only is asserted and the motor keeps running. *)
Theorem cancelled_cooperative_ramp_is_not_braked k c t b ms s :
  irq s = Some k -> speed s = Int c -> -100 <= c <= 100 -> -100 <= t <= 100 ->
  (k < Z.to_nat (Z.abs (t - c)))%nat ->
  exists s1 s2,
    safe_drive (S k) (Int t) ms (status_of b) s = Some (Ok tt, s1) /\
    is_brake s1 /\
    safe_drive_async (S k) (Int t) ms (status_of b) s = Some (Raise CancelledError, s2) /\
    speed s2 = Int (if c >? t then c - Z.of_nat (S k) else c + Z.of_nat (S k)) /\
    hw s2 = drive_hw (if c >? t then c - Z.of_nat (S k) else c + Z.of_nat (S k)) true /\
    ((if c >? t then c - Z.of_nat (S k) else c + Z.of_nat (S k)) <> 0 ->
     p1 s2 = negb (p2 s2) /\ 655 <= pwm s2 /\ ~ is_brake s2).
Proof.
  intros Hk Hs Hc Ht Hlt.
  destruct (for_ramp_Int_interrupted (SleepMs ms) KeyboardInterrupt b t Ht k c s
              Hk Hs Hc Hlt) as (s1 & E1 & _ & _ & _).
  destruct (for_ramp_Int_interrupted (AsyncSleepMs ms) CancelledError b t Ht k c s
              Hk Hs Hc Hlt) as (s2 & E2 & _ & Sp2 & W2).
  exists (brake_state s1), s2.
  unfold safe_drive, safe_drive_async, guarded, sleep_ms, async_sleep_ms.
  rewrite E1, E2, brake_eq.
  split; [reflexivity |]. split; [apply brake_state_is_brake |].
  split; [reflexivity |]. split; [exact Sp2 |]. split; [exact W2 |].
  set (v := if c >? t then c - Z.of_nat (S k) else c + Z.of_nat (S k)) in *.
  intros Hv.
  assert (L : p1 s2 = negb (p2 s2)).
  { pose proof (drive_hw_not_brake v Hv) as N. rewrite <- W2 in N. exact N. }
  assert (D : pwm s2 = percent_to_duty_spec v).
  { assert (H : snd (hw s2) = snd (drive_hw v true)) by (now rewrite W2).
    unfold drive_hw in H. destruct (Z.eqb_spec v 0); [contradiction | exact H]. }
  split; [exact L |]. split.
  - rewrite D. apply percent_to_duty_spec_nonzero. exact Hv.
  - intros (B1 & B2 & _). rewrite B1, B2 in L. discriminate.
Qed.

Lemma cancelled_cooperative_ramp_is_not_braked_witness :
  irq interrupted_in_third_delay = Some 2%nat /\
  speed interrupted_in_third_delay = Int 0 /\
  -100 <= 0 <= 100 /\ -100 <= 5 <= 100 /\ (2 < Z.to_nat (Z.abs (5 - 0)))%nat /\
  exists s2, safe_drive_async 3 (Int 5) 70 (status_of true) interrupted_in_third_delay
             = Some (Raise CancelledError, s2) /\
             speed s2 = Int 3 /\ hw s2 = (true, false, 1966).
Proof.
  assert (H1 : irq interrupted_in_third_delay = Some 2%nat) by reflexivity.
  assert (H2 : speed interrupted_in_third_delay = Int 0) by reflexivity.
  assert (H3 : -100 <= 0 <= 100) by lia.
  assert (H4 : -100 <= 5 <= 100) by lia.
  assert (H5 : (2 < Z.to_nat (Z.abs (5 - 0)))%nat) by (simpl; lia).
  repeat (split; [assumption |]).
  destruct (cancelled_cooperative_ramp_is_not_braked 2 0 5 true 70
              interrupted_in_third_delay H1 H2 H3 H4 H5)
    as (s1 & s2 & _ & _ & E2 & Sp2 & W2 & _).
  exists s2. split; [exact E2 |]. split; [exact Sp2 | exact W2].
Defined.


(** Where floats have 24 bits of mantissa, 655.35 is stored a little below
    its value and the product with 50 falls under the half: the duty of 50
    percent is then 32767. *)
Remark percent_to_duty_single_50 : percent_to_duty_single (Int 50) = Ok 32767.
Proof. vm_compute. reflexivity. Qed.

(** C7.  Whatever the object and the lines were before, the constructor
    leaves the speed at 0 with the brake applied;
    [drive(speed)] returns, on every number, the speed clamped into
    [-100, 100] and has stored it; the clamp leaves a speed of the range
    as it is and takes an integer to the nearest bound, so [drive(200)] is
    100 and [drive(-200)] is -100; and in every state an instance can
    reach, by any sequence of calls and interrupts, the stored speed is in
    [-100, 100]. *)
Theorem stored_speed_is_always_in_range :
  (forall stby_pin l1 l2 d i v,
      fst (init stby_pin (blank l1 l2 d i v)) = Ok tt /\
      speed (snd (init stby_pin (blank l1 l2 d i v))) = Int 0 /\
      is_brake (snd (init stby_pin (blank l1 l2 d i v)))) /\
  (forall sp ab s, exists s',
      drive (Some sp) ab s = (Ok (clamp sp), s') /\
      speed s' = clamp sp /\ in_range (clamp sp)) /\
  (forall z, clamp (Int z) = Int (Z.max (-100) (Z.min 100 z))) /\
  (forall sp, in_range sp -> eqb (clamp sp) sp = true) /\
  (forall ab s, fst (drive (Some (Int 200)) ab s) = Ok (Int 100) /\
                fst (drive (Some (Int (-200))) ab s) = Ok (Int (-100))) /\
  (forall stby_pin s, reachable stby_pin s -> in_range (speed s)).
Proof.
  split; [| split; [| split; [| split; [| split]]]].
  - intros. rewrite init_eq. repeat split.
  - intros sp ab s. destruct (drive_Some sp ab s) as (d & _ & _ & E).
    eexists. split; [exact E |]. rewrite speed_drive_state.
    split; [reflexivity | apply clamp_in_range].
  - exact clamp_Int.
  - exact clamp_in_range_eqb.
  - intros ab s. rewrite !drive_Int. split; reflexivity.
  - exact reachable_speed_in_range.
Qed.

Lemma stored_speed_is_always_in_range_witness :
  reachable None after_wild_calls /\ in_range (speed after_wild_calls).
Proof.
  assert (R : reachable None after_wild_calls).
  { apply (reach_call None (Call_drive (Some (Int (-200))) false)
             (snd (drive (Some (Int 200)) true fresh))); [| reflexivity].
    apply (reach_call None (Call_drive (Some (Int 200)) true) fresh); [| reflexivity].
    apply reach_init. }
  split; [exact R |].
  exact (proj2 (proj2 (proj2 (proj2 (proj2 stored_speed_is_always_in_range))))
           None after_wild_calls R).
Defined.



(** The first testable property behind C8: from 0 to 0 the generator yields
    nothing and the observer is called once, with 0. *)
Example drive_ramp_0_to_0 :
  exists s', ramp_run 1 (Int 0) (Some observer) fresh = Some (Ok [], s') /\
             statuses (log s') = [Int 0].
Proof. eexists. split; reflexivity. Qed.

(** C9.  [drive()] without a speed returns the stored speed and leaves the
    whole state as it was: the attributes, the lines, the duty and the
    trace, in every state and for either value of [auto_brake]. *)
Theorem drive_without_speed_is_a_read ab s :
  drive None ab s = (Ok (speed s), s) /\
  new_events (drive None ab) s = [].
Proof.
  split; [reflexivity |].
  unfold new_events. rewrite drive_None. simpl snd.
  rewrite <- (app_nil_r (log s)) at 2. apply skipn_length_app.
Qed.

(** C10.  On an instance built without standby pin, in whatever state it
    has reached, [on()] raises [AttributeError] and changes nothing, while
    [off(auto_brake)] first runs [brake()] or [coast()] as asked, writing
    the two lines and the duty, and then raises [AttributeError]. *)
Theorem on_off_without_standby_pin s :
  reachable None s ->
  on s = (Raise AttributeError, s) /\
  off true s = (Raise AttributeError, brake_state s) /\
  off false s = (Raise AttributeError, coast_state s) /\
  new_events (off true) s = [WriteP1 true; WriteP2 true; WriteDuty 0] /\
  new_events (off false) s = [WriteP1 false; WriteP2 false; WriteDuty 0].
Proof.
  intros R. apply reachable_no_stby in R.
  assert (V : forall v s0, stby s0 = None -> stby_value v s0 = (Raise AttributeError, s0)).
  { intros v s0 H. unfold stby_value, bind, get. now rewrite H. }
  assert (On : on s = (Raise AttributeError, s)) by (apply V; exact R).
  assert (Off : forall ab, off ab s
                = (Raise AttributeError, if ab then brake_state s else coast_state s)).
  { intros ab. unfold off. rewrite bind_eq.
    destruct ab; [rewrite brake_eq | rewrite coast_eq]; apply V; exact R. }
  split; [exact On |]. split; [exact (Off true) |]. split; [exact (Off false) |].
  unfold new_events. rewrite (Off true), (Off false). simpl.
  rewrite <- !app_assoc. split; apply skipn_length_app.
Qed.

Lemma on_off_without_standby_pin_witness :
  reachable None fresh /\
  on fresh = (Raise AttributeError, fresh) /\
  off false fresh = (Raise AttributeError, coast_state fresh).
Proof.
  assert (R : reachable None fresh) by apply reach_init.
  split; [exact R |].
  destruct (on_off_without_standby_pin fresh R) as (On & _ & Off & _).
  split; [exact On | exact Off].
Defined.

(** * Further properties of the code *)

(** ** The duty converter *)

Lemma abs_neg p : PyNum.abs (neg p) = PyNum.abs p.
Proof.
  destruct p as [z|f]; simpl; [f_equal; lia | now destruct f].
Qed.

Lemma percent_to_duty_ignores_sign_aux p :
  percent_to_duty (neg p) = percent_to_duty p.
Proof.
  unfold percent_to_duty, percent_to_duty_in. now rewrite abs_neg.
Qed.

(** X1.  The duty does not depend on the sign of the percentage, whatever
    the number, and taking the absolute value first changes nothing:
    [percent_to_duty(-p) == percent_to_duty(p) == percent_to_duty(abs(p))],
    a duty in [0, 65535] in each case. *)
Theorem percent_to_duty_ignores_sign p :
  exists d, 0 <= d <= 65535 /\
            percent_to_duty p = Ok d /\
            percent_to_duty (neg p) = Ok d /\
            percent_to_duty (PyNum.abs p) = Ok d /\
            percent_to_duty (neg (PyNum.abs p)) = Ok d.
Proof.
  destruct (percent_to_duty_total p) as (d & Hd & Hr).
  assert (A : percent_to_duty (PyNum.abs p) = Ok d).
  { rewrite <- Hd. unfold percent_to_duty, percent_to_duty_in.
    assert (E : PyNum.abs (PyNum.abs p) = PyNum.abs p).
    { destruct p as [z|f]; simpl; [f_equal; lia | now destruct f]. }
    now rewrite E. }
  exists d. split; [exact Hr |]. split; [exact Hd |].
  split; [now rewrite percent_to_duty_ignores_sign_aux |].
  split; [exact A |]. now rewrite percent_to_duty_ignores_sign_aux.
Qed.

(** X2.  On integer percentages the duty grows with the magnitude, by at
    least 655 for every unit up to 100, and stays at 65535 from 100 on: two
    magnitudes up to 100 never share a duty, and only 0 has the duty 0. *)
Theorem percent_to_duty_grows_with_magnitude :
  (forall a b, Z.abs a < Z.abs b -> Z.abs b <= 100 ->
     exists da db, percent_to_duty (Int a) = Ok da /\ percent_to_duty (Int b) = Ok db /\
                   da + 655 * (Z.abs b - Z.abs a) <= db) /\
  (forall z, 100 <= Z.abs z -> percent_to_duty (Int z) = Ok 65535) /\
  (forall z, percent_to_duty (Int z) = Ok 0 <-> z = 0).
Proof.
  pose proof percent_to_duty_spec_grows as G.
  split; [| split].
  - intros a b Hab Hb. rewrite !percent_to_duty_Int.
    do 2 eexists. split; [reflexivity |]. split; [reflexivity |].
    rewrite <- (percent_to_duty_spec_abs a), <- (percent_to_duty_spec_abs b).
    specialize (G (Z.to_nat (Z.abs b - Z.abs a)) (Z.abs a) ltac:(lia) ltac:(lia)).
    replace (Z.abs a + Z.of_nat (Z.to_nat (Z.abs b - Z.abs a))) with (Z.abs b) in G by lia.
    lia.
  - intros z Hz. rewrite percent_to_duty_Int. unfold percent_to_duty_spec.
    replace (Z.max 0 (Z.min 100 (Z.abs z))) with 100 by lia. reflexivity.
  - intros z. rewrite percent_to_duty_Int. split.
    + intros H. injection H as H.
      destruct (Z.eq_dec z 0) as [E|N]; [exact E | exfalso].
      rewrite <- percent_to_duty_spec_abs in H.
      destruct (Z_le_gt_dec (Z.abs z) 100) as [L|L].
      * specialize (G (Z.to_nat (Z.abs z)) 0 ltac:(lia) ltac:(lia)).
        replace (0 + Z.of_nat (Z.to_nat (Z.abs z))) with (Z.abs z) in G by lia.
        change (percent_to_duty_spec 0) with 0 in G. lia.
      * unfold percent_to_duty_spec in H.
        replace (Z.max 0 (Z.min 100 (Z.abs (Z.abs z)))) with 100 in H by lia.
        discriminate.
    + intros ->. reflexivity.
Qed.

Lemma percent_to_duty_grows_with_magnitude_witness :
  Z.abs (-49) < Z.abs 50 /\ Z.abs 50 <= 100 /\
  exists da db, percent_to_duty (Int (-49)) = Ok da /\ percent_to_duty (Int 50) = Ok db /\
                da + 655 <= db.
Proof.
  assert (H1 : Z.abs (-49) < Z.abs 50) by (simpl; lia).
  assert (H2 : Z.abs 50 <= 100) by (simpl; lia).
  split; [exact H1 |]. split; [exact H2 |].
  destruct (proj1 percent_to_duty_grows_with_magnitude (-49) 50 H1 H2)
    as (da & db & Ea & Eb & L).
  exists da, db. split; [exact Ea |]. split; [exact Eb |]. simpl in L. lia.
Defined.

(** ** [set_motor] *)

Lemma set_motor_raw_values sp d s :
  percent_to_duty sp = Ok d ->
  set_motor "raw_values" sp s = (Ok tt, set_pwm d s).
Proof.
  intros H. unfold set_motor.
  change (getattr_set "raw_values") with (Some Set_raw_values).
  unfold bind, lift, call0.
  change (set_raw_values None None None s) with (Ok tt, s).
  cbv beta iota. now rewrite H.
Qed.

(** X3.  What [set_motor(direction, speed)] does, for every direction and
    every number: ["forward"] and ["reverse"] set the two lines and then the
    duty of [speed]; ["raw_values"] is accepted and sets the duty only;
    ["motor"] raises [TypeError]; every other name raises [ValueError] with
    the name in the message; and whenever it raises, nothing was written.
    The duty is always in [0, 65535], the sign of [speed] is ignored, and
    the stored speed is never changed. *)
Theorem set_motor_outcomes direction sp s :
  exists duty,
    percent_to_duty sp = Ok duty /\ 0 <= duty <= 65535 /\
    set_motor direction sp s =
      (if (direction =? "forward")%string then
         (Ok tt, set_pwm duty (forward_state s))
       else if (direction =? "reverse")%string then
         (Ok tt, set_pwm duty (reverse_state s))
       else if (direction =? "raw_values")%string then
         (Ok tt, set_pwm duty s)
       else if (direction =? "motor")%string then
         (Raise TypeError, s)
       else
         (Raise (ValueError ("Invalid direction: " ++ direction)), s)) /\
    set_motor direction (neg sp) s = set_motor direction sp s /\
    speed (snd (set_motor direction sp s)) = speed s.
Proof.
  destruct (percent_to_duty_total sp) as (duty & Hd & Hr).
  exists duty. split; [exact Hd |]. split; [exact Hr |].
  assert (E : set_motor direction sp s =
      (if (direction =? "forward")%string then
         (Ok tt, set_pwm duty (forward_state s))
       else if (direction =? "reverse")%string then
         (Ok tt, set_pwm duty (reverse_state s))
       else if (direction =? "raw_values")%string then
         (Ok tt, set_pwm duty s)
       else if (direction =? "motor")%string then
         (Raise TypeError, s)
       else
         (Raise (ValueError ("Invalid direction: " ++ direction)), s))).
  { destruct (String.eqb_spec direction "forward") as [->|N1];
      [now apply set_motor_forward |].
    destruct (String.eqb_spec direction "reverse") as [->|N2];
      [now apply set_motor_reverse |].
    destruct (String.eqb_spec direction "raw_values") as [->|N3];
      [now apply set_motor_raw_values |].
    destruct (String.eqb_spec direction "motor") as [->|N4];
      [apply set_motor_motor |].
    apply set_motor_unknown_direction. now apply getattr_set_unknown. }
  split; [exact E |]. split.
  - unfold set_motor. now rewrite percent_to_duty_ignores_sign_aux.
  - rewrite E.
    destruct (direction =? "forward")%string; [reflexivity |].
    destruct (direction =? "reverse")%string; [reflexivity |].
    destruct (direction =? "raw_values")%string; [reflexivity |].
    destruct (direction =? "motor")%string; reflexivity.
Qed.

(** ** [drive] *)

Lemma log_drive_state_Int p ab s :
  log (drive_state (Int p) ab (percent_to_duty_spec p) s) = log s ++ drive_events p ab.
Proof.
  unfold drive_state, drive_events. rewrite neb_Int, ltb_Int.
  destruct (Z.eqb_spec p 0); simpl negb; cbv iota.
  - destruct ab; simpl; now rewrite <- !app_assoc.
  - destruct (p <? 0); simpl; now rewrite <- !app_assoc.
Qed.

Lemma clamp_idem sp : clamp (clamp sp) = clamp sp.
Proof.
  unfold clamp, PyNum.min, PyNum.max.
  destruct (ltb sp (Int 100)) eqn:L.
  - destruct (gtb sp (Int (-100))) eqn:G.
    + now rewrite L, G.
    + reflexivity.
  - reflexivity.
Qed.

(** X4.  [drive(z)] on an integer: a positive speed asserts line 1 only, a
    negative one line 2 only, and either way the duty is that of the clamped
    magnitude, at least 655; zero asserts both lines on [auto_brake] and
    neither without it, with duty 0.  The three writes go lines first, duty
    last, and the clamped speed is returned. *)
Theorem drive_integer_sets_lines_and_duty z ab s :
  drive (Some (Int z)) ab s
  = (Ok (Int (clampZ z)), snd (drive (Some (Int z)) ab s)) /\
  log (snd (drive (Some (Int z)) ab s)) = log s ++ drive_events (clampZ z) ab /\
  (0 < z -> hw (snd (drive (Some (Int z)) ab s))
            = (true, false, percent_to_duty_spec (clampZ z)) /\
            655 <= percent_to_duty_spec (clampZ z) <= 65535) /\
  (z < 0 -> hw (snd (drive (Some (Int z)) ab s))
            = (false, true, percent_to_duty_spec (clampZ z)) /\
            655 <= percent_to_duty_spec (clampZ z) <= 65535) /\
  (z = 0 -> hw (snd (drive (Some (Int z)) ab s)) = (ab, ab, 0)).
Proof.
  rewrite drive_Int. simpl snd. split; [reflexivity |].
  split; [apply log_drive_state_Int |].
  rewrite hw_drive_state_Int. unfold drive_hw.
  split; [| split]; intros Hz.
  - assert (P : 0 < clampZ z) by (unfold clampZ; lia).
    destruct (Z.eqb_spec (clampZ z) 0); [lia |].
    destruct (Z.ltb_spec 0 (clampZ z)), (Z.ltb_spec (clampZ z) 0); try lia.
    split; [reflexivity | apply percent_to_duty_spec_nonzero; lia].
  - assert (P : clampZ z < 0) by (unfold clampZ; lia).
    destruct (Z.eqb_spec (clampZ z) 0); [lia |].
    destruct (Z.ltb_spec 0 (clampZ z)), (Z.ltb_spec (clampZ z) 0); try lia.
    split; [reflexivity | apply percent_to_duty_spec_nonzero; lia].
  - subst z. reflexivity.
Qed.

Lemma drive_integer_sets_lines_and_duty_witness :
  -30 < 0 /\
  hw (snd (drive (Some (Int (-30))) true fresh)) = (false, true, 19660).
Proof.
  assert (H : -30 < 0) by lia.
  split; [exact H |].
  exact (proj1 (proj1 (proj2 (proj2 (proj2
           (drive_integer_sets_lines_and_duty (-30) true fresh)))) H)).
Defined.

(** X5.  The outputs and the stored speed that [drive(speed)] leaves depend
    on the call alone, not on the state before it: so a repeated call
    changes nothing more, [drive()] afterwards returns the same speed, the
    clamped speed gives the same outputs as the speed itself, and the duty
    is in [0, 65535] whatever the number. *)
Theorem drive_result_depends_on_the_call_only sp ab s1 s2 :
  hw (snd (drive (Some sp) ab s1)) = hw (snd (drive (Some sp) ab s2)) /\
  speed (snd (drive (Some sp) ab s1)) = speed (snd (drive (Some sp) ab s2)) /\
  hw (snd (drive (Some sp) ab (snd (drive (Some sp) ab s1))))
  = hw (snd (drive (Some sp) ab s1)) /\
  (forall ab', fst (drive None ab' (snd (drive (Some sp) ab s1)))
               = fst (drive (Some sp) ab s1)) /\
  hw (snd (drive (Some (clamp sp)) ab s1)) = hw (snd (drive (Some sp) ab s1)) /\
  0 <= pwm (snd (drive (Some sp) ab s1)) <= 65535.
Proof.
  assert (G : forall s, exists d, 0 <= d <= 65535 /\
              percent_to_duty (PyNum.abs (clamp sp)) = Ok d /\
              drive (Some sp) ab s = (Ok (clamp sp), drive_state (clamp sp) ab d s)).
  { intros s. destruct (drive_Some sp ab s) as (d & Hd & Hr & E). eauto. }
  destruct (G s1) as (d1 & R1 & D1 & E1).
  destruct (G s2) as (d2 & _ & D2 & E2).
  destruct (G (snd (drive (Some sp) ab s1))) as (d3 & _ & D3 & E3).
  destruct (drive_Some (clamp sp) ab s1) as (d4 & D4 & _ & E4).
  rewrite clamp_idem in D4, E4.
  assert (d2 = d1) by congruence. assert (d3 = d1) by congruence.
  assert (d4 = d1) by congruence. subst d2 d3 d4.
  assert (P : 0 <= pwm (drive_state (clamp sp) ab d1 s1) <= 65535).
  { assert (H : hw (drive_state (clamp sp) ab d1 s1) =
                (p1 (drive_state (clamp sp) ab d1 s1),
                 p2 (drive_state (clamp sp) ab d1 s1),
                 pwm (drive_state (clamp sp) ab d1 s1))) by reflexivity.
    rewrite hw_drive_state in H.
    destruct (neb (clamp sp) (Int 0)); [destruct (ltb (clamp sp) (Int 0)) |];
      injection H as _ _ <-; lia. }
  rewrite E3, E4, E1, E2.
  cbn [fst snd].
  rewrite !hw_drive_state, !speed_drive_state.
  split; [reflexivity |]. split; [reflexivity |]. split; [reflexivity |].
  split; [| split; [reflexivity | exact P]].
  intros ab'. rewrite drive_None. cbn [fst]. now rewrite speed_drive_state.
Qed.

Lemma clamp_high sp : ltb sp (Int 100) = false -> clamp sp = Int 100.
Proof. intros L. unfold clamp, PyNum.min. rewrite L. now rewrite max_Int. Qed.

Lemma clamp_low sp :
  ltb sp (Int 100) = true -> gtb sp (Int (-100)) = false -> clamp sp = Int (-100).
Proof. intros L G. unfold clamp, PyNum.min, PyNum.max. now rewrite L, G. Qed.

(** X6.  A speed that is not below 100 is driven as 100, full duty forward:
    that is every number from 100 up, plus infinity, and also a NaN, for
    which no comparison holds.  A speed below 100 that is not above -100 is
    driven as -100, full duty in reverse. *)
Theorem drive_saturates sp ab s :
  (ltb sp (Int 100) = false ->
   drive (Some sp) ab s
   = (Ok (Int 100), set_pwm 65535 (forward_state (set_speed (Int 100) s)))) /\
  (ltb sp (Int 100) = true -> gtb sp (Int (-100)) = false ->
   drive (Some sp) ab s
   = (Ok (Int (-100)), set_pwm 65535 (reverse_state (set_speed (Int (-100)) s)))) /\
  ltb (Float S754_nan) (Int 100) = false /\
  ltb (Float (S754_infinity false)) (Int 100) = false /\
  gtb (Float (S754_infinity true)) (Int (-100)) = false.
Proof.
  split; [| split; [| repeat split]].
  - intros L. destruct (drive_Some sp ab s) as (d & Hd & _ & E).
    rewrite (clamp_high sp L) in *. rewrite E.
    assert (d = 65535) by (vm_compute in Hd; congruence). subst d. reflexivity.
  - intros L G. destruct (drive_Some sp ab s) as (d & Hd & _ & E).
    rewrite (clamp_low sp L G) in *. rewrite E.
    assert (d = 65535) by (vm_compute in Hd; congruence). subst d. reflexivity.
Qed.

Lemma drive_saturates_witness :
  ltb (Float S754_nan) (Int 100) = false /\
  drive (Some (Float S754_nan)) true fresh
  = (Ok (Int 100), set_pwm 65535 (forward_state (set_speed (Int 100) fresh))).
Proof.
  assert (H : ltb (Float S754_nan) (Int 100) = false) by reflexivity.
  split; [exact H |].
  exact (proj1 (drive_saturates (Float S754_nan) true fresh) H).
Defined.

Lemma forall_speed (f : Z -> bool) :
  forallb f (map (fun n => Z.of_nat n - 100) (seq 0 201)) = true ->
  forall z, -100 <= z <= 100 -> f z = true.
Proof.
  intros H z Hz. rewrite forallb_forall in H. apply H.
  apply in_map_iff. exists (Z.to_nat (z + 100)). split; [lia |].
  apply in_seq. lia.
Qed.

Lemma same_as_integer_in_range z : -100 <= z <= 100 -> same_as_integer z = true.
Proof.
  revert z. apply forall_speed. vm_compute. reflexivity.
Qed.

(** X7.  A float speed of integral value in [-100, 100], such as 50.0, is
    driven exactly as the integer: the value returned equals it and the
    lines and the duty are the same. *)
Theorem drive_integral_float_as_integer z ab s :
  -100 <= z <= 100 ->
  exists v s',
    drive (Some (Float (of_Z 53 1024 z))) ab s = (Ok v, s') /\
    eqb v (Int z) = true /\
    hw s' = hw (snd (drive (Some (Int z)) ab s)).
Proof.
  intros Hz. pose proof (same_as_integer_in_range z Hz) as C.
  unfold same_as_integer in C.
  apply andb_true_iff in C as [C C4]. apply andb_true_iff in C as [C C3].
  apply andb_true_iff in C as [C1 C2].
  apply Bool.eqb_prop in C2, C3. apply result_Z_eqb_eq in C4.
  destruct (drive_Some (Float (of_Z 53 1024 z)) ab s) as (d & Hd & _ & E).
  rewrite C4 in Hd. injection Hd as <-.
  do 2 eexists. split; [exact E |]. split; [exact C1 |].
  rewrite drive_Int, (clampZ_id z Hz). simpl snd.
  now rewrite !hw_drive_state, C2, C3.
Qed.

Lemma drive_integral_float_as_integer_witness :
  -100 <= 50 <= 100 /\
  exists v s',
    drive (Some (Float (of_Z 53 1024 50))) true fresh = (Ok v, s') /\
    eqb v (Int 50) = true /\ hw s' = (true, false, 32768).
Proof.
  assert (H : -100 <= 50 <= 100) by lia.
  split; [exact H |].
  destruct (drive_integral_float_as_integer 50 true fresh H) as (v & s' & E & V & W).
  exists v, s'. split; [exact E |]. split; [exact V | exact W].
Defined.

(** ** The stop methods and the stored speed *)

(** X8.  [brake()], [coast()], [set_forward()] and [set_reverse()] leave
    the stored speed as it is, so that [drive()] still returns the speed of
    the last [drive(speed)].  A ramp whose target equals that speed
    therefore takes no step and writes nothing, through the generator or
    either wrapper: after [brake()] the motor stays braked although the
    stored speed says otherwise. *)
Theorem stopping_keeps_the_stored_speed t b ms s :
  neb (speed s) t = false ->
  fst (drive None true (snd (brake s))) = Ok (speed s) /\
  fst (drive None true (snd (coast s))) = Ok (speed s) /\
  fst (drive None true (snd (set_forward s))) = Ok (speed s) /\
  fst (drive None true (snd (set_reverse s))) = Ok (speed s) /\
  ramp_run 1 t (status_of b) (snd (brake s))
  = Some (Ok [], notify b (speed s) (brake_state s)) /\
  safe_drive 1 t ms (status_of b) (snd (brake s))
  = Some (Ok tt, notify b (speed s) (brake_state s)) /\
  safe_drive_async 1 t ms (status_of b) (snd (brake s))
  = Some (Ok tt, notify b (speed s) (brake_state s)) /\
  is_brake (notify b (speed s) (brake_state s)) /\
  hw (notify b (speed s) (coast_state s)) = (false, false, 0) /\
  ramp_run 1 t (status_of b) (snd (coast s))
  = Some (Ok [], notify b (speed s) (coast_state s)).
Proof.
  intros N.
  assert (D : forall s0, speed s0 = speed s -> forall body,
              for_ramp 1 t (status_of b) body s0 = Some (Ok [], notify b (speed s) s0)).
  { intros s0 H0 body. rewrite for_ramp_S.
    rewrite drive_ramp_next_done by (now rewrite H0). now rewrite H0. }
  rewrite brake_eq, coast_eq, set_forward_eq, set_reverse_eq. simpl snd.
  do 4 (split; [reflexivity |]).
  unfold ramp_run, safe_drive, safe_drive_async, guarded.
  rewrite !(D (brake_state s) eq_refl), !(D (coast_state s) eq_refl).
  repeat split; destruct b; reflexivity.
Qed.

Lemma stopping_keeps_the_stored_speed_witness :
  neb (speed at_speed_10) (Int 10) = false /\
  fst (drive None true (snd (brake at_speed_10))) = Ok (Int 10) /\
  option_map (fun r => hw (snd r)) (safe_drive 1 (Int 10) 70 None (snd (brake at_speed_10)))
  = Some (true, true, 0).
Proof.
  assert (H : neb (speed at_speed_10) (Int 10) = false) by (vm_compute; reflexivity).
  split; [exact H |].
  destruct (stopping_keeps_the_stored_speed (Int 10) false 70 at_speed_10 H)
    as (B & _ & _ & _ & _ & S & _).
  split; [exact B |].
  change (@None (num -> M unit)) with (status_of false). now rewrite S.
Defined.

(** ** Ramps that cannot end *)

Section Unreachable.
Variable body : M unit.
Variable P : option nat -> Prop.
Hypothesis body_quiet : forall s, P (irq s) ->
  exists s', body s = (Ok tt, s') /\ P (irq s') /\ speed s' = speed s /\
             statuses (log s') = statuses (log s).
Variable t : Z.
Variable b : bool.
Hypothesis Ht : t < -100 \/ 100 < t.

Lemma for_ramp_beyond_range : forall fuel c s,
  speed s = Int c -> -100 <= c <= 100 -> P (irq s) ->
  for_ramp fuel (Int t) (status_of b) body s = None.
Proof.
  induction fuel as [|fuel IH]; intros c s Hs Hc HP; [reflexivity |].
  rewrite for_ramp_S.
  assert (N : neb (speed s) (Int t) = true).
  { rewrite Hs, neb_Int. destruct (Z.eqb_spec c t); [lia | reflexivity]. }
  destruct (drive_ramp_next_yield (Int t) b s N) as (d & _ & _ & E).
  fold (ramp_step_value (Int t) s) in E.
  rewrite (ramp_step_value_Int c t s Hs) in E. rewrite E.
  set (s1 := drive_state _ true d _).
  destruct (body_quiet s1) as (s2 & E2 & P2 & Sp2 & _).
  { subst s1. now rewrite irq_drive_state, irq_notify. }
  rewrite E2.
  rewrite (IH (clampZ (step_toward c t)) s2); [reflexivity | | | exact P2].
  - rewrite Sp2. subst s1. apply speed_drive_state.
  - unfold clampZ. lia.
Qed.
End Unreachable.

(** X9.  A ramp towards an integer target outside [-100, 100] never ends:
    every step is clamped back into the range, the speed stays at the bound
    once it is there, and the loop test never fails.  The generator keeps
    yielding and, with no interrupt, neither wrapper returns, whatever the
    number of resumptions allowed. *)
Theorem ramp_beyond_the_range_never_ends fuel c t b ms s :
  speed s = Int c -> -100 <= c <= 100 -> t < -100 \/ 100 < t ->
  ramp_run fuel (Int t) (status_of b) s = None /\
  (irq s = None ->
   safe_drive fuel (Int t) ms (status_of b) s = None /\
   safe_drive_async fuel (Int t) ms (status_of b) s = None).
Proof.
  intros Hs Hc Ht. split.
  - exact (for_ramp_beyond_range (ret tt) (fun _ => True) ret_quiet t b Ht fuel c s Hs Hc I).
  - intros Hi. unfold safe_drive, safe_drive_async, guarded.
    rewrite (for_ramp_beyond_range (sleep_ms ms) (fun i => i = None)
               (sleep_quiet (SleepMs ms) KeyboardInterrupt eq_refl) t b Ht fuel c s Hs Hc Hi).
    rewrite (for_ramp_beyond_range (async_sleep_ms ms) (fun i => i = None)
               (sleep_quiet (AsyncSleepMs ms) CancelledError eq_refl) t b Ht fuel c s Hs Hc Hi).
    split; reflexivity.
Qed.

Lemma ramp_beyond_the_range_never_ends_witness :
  speed fresh = Int 0 /\ -100 <= 0 <= 100 /\ (150 < -100 \/ 100 < 150) /\
  ramp_run 1000 (Int 150) None fresh = None.
Proof.
  assert (H1 : speed fresh = Int 0) by reflexivity.
  assert (H2 : -100 <= 0 <= 100) by lia.
  assert (H3 : 150 < -100 \/ 100 < 150) by (right; lia).
  split; [exact H1 |]. split; [exact H2 |]. split; [exact H3 |].
  exact (proj1 (ramp_beyond_the_range_never_ends 1000 0 150 false 70 fresh H1 H2 H3)).
Defined.

(** ** The trace and the end state of a ramp between integers *)

Lemma log_notify b v s : log (notify b v s) = log s ++ (if b then [Status v] else []).
Proof. destruct b; simpl; [reflexivity | now rewrite app_nil_r]. Qed.

Lemma hw_notify b v s : hw (notify b v s) = hw s.
Proof. destruct b; reflexivity. Qed.

Lemma slept_app l1 l2 : slept (l1 ++ l2) = slept l1 + slept l2.
Proof.
  induction l1 as [|e l1 IH]; simpl; [reflexivity |].
  destruct e; rewrite IH; lia.
Qed.

Lemma slept_drive_events p ab : slept (drive_events p ab) = 0.
Proof.
  unfold drive_events. destruct (p =? 0); [destruct ab | destruct (p <? 0)]; reflexivity.
Qed.

Lemma slept_ramp_trace b between : forall steps c,
  slept (ramp_trace b between c steps)
  = slept between * Z.of_nat (List.length steps).
Proof.
  induction steps as [|x rest IH]; intros c.
  - destruct b; simpl; lia.
  - cbn [ramp_trace List.length]. rewrite !slept_app, slept_drive_events, IH.
    destruct b; simpl slept; lia.
Qed.

Section IntegerRampTrace.
(** The loop body appends the events [between] and touches nothing else
    that matters to the ramp. *)
Variable body : M unit.
Variable P : option nat -> Prop.
Variable between : list event.
Hypothesis body_trace : forall s, P (irq s) ->
  exists s', body s = (Ok tt, s') /\ P (irq s') /\ speed s' = speed s /\
             log s' = log s ++ between /\ hw s' = hw s.

Variable t : Z.
Variable b : bool.
Hypothesis Ht : -100 <= t <= 100.

Lemma for_ramp_Int_trace : forall n c s,
  Z.to_nat (Z.abs (t - c)) = n -> speed s = Int c -> -100 <= c <= 100 ->
  P (irq s) ->
  exists s', for_ramp (S n) (Int t) (status_of b) body s
             = Some (Ok (map Int (ramp_steps c t)), s') /\
             speed s' = Int t /\
             log s' = log s ++ ramp_trace b between c (ramp_steps c t) /\
             hw s' = (if c =? t then hw s else drive_hw t true).
Proof.
  induction n as [|n IH]; intros c s Hn Hs Hc HP.
  - assert (c = t) by lia. subst c.
    rewrite for_ramp_S, drive_ramp_next_Int_done by assumption.
    rewrite ramp_steps_nil, Z.eqb_refl. eexists. split; [reflexivity |].
    rewrite speed_notify, log_notify, hw_notify. repeat split. exact Hs.
  - assert (Hne : c <> t) by lia.
    rewrite for_ramp_S, (drive_ramp_next_Int c) by assumption.
    set (c' := step_toward c t).
    set (s1 := drive_state (Int c') true _ _).
    assert (Hc' : -100 <= c' <= 100 /\ Z.to_nat (Z.abs (t - c')) = n).
    { subst c'. unfold step_toward. destruct (Z.gtb_spec c t); lia. }
    destruct (body_trace s1) as (s2 & E2 & P2 & Sp2 & L2 & W2).
    { subst s1. now rewrite irq_drive_state, irq_notify. }
    rewrite E2.
    destruct (IH c' s2) as (s3 & E3 & Sp3 & L3 & W3); try tauto.
    { rewrite Sp2. subst s1. apply speed_drive_state. }
    rewrite E3. exists s3.
    rewrite (ramp_steps_cons c t) by assumption. fold c'.
    split; [reflexivity |]. split; [exact Sp3 |]. split.
    + rewrite L3, L2. subst s1. rewrite log_drive_state_Int, log_notify.
      cbn [ramp_trace]. now rewrite <- !app_assoc.
    + rewrite W3, W2. subst s1. rewrite hw_drive_state_Int.
      destruct (Z.eqb_spec c t); [contradiction |].
      destruct (Z.eqb_spec c' t) as [->|]; reflexivity.
Qed.
End IntegerRampTrace.

Lemma ret_trace : forall s, True ->
  exists s', ret tt s = (Ok tt, s') /\ True /\ speed s' = speed s /\
             log s' = log s ++ [] /\ hw s' = hw s.
Proof. intros s _. exists s. rewrite app_nil_r. repeat split. Qed.

Lemma sleep_trace e x : forall s, irq s = None ->
  exists s', sleep_with e x s = (Ok tt, s') /\ irq s' = None /\ speed s' = speed s /\
             log s' = log s ++ [e] /\ hw s' = hw s.
Proof.
  intros s H. unfold sleep_with. rewrite H. eexists. split; [reflexivity |].
  repeat split. exact H.
Qed.

(** X10.  The whole trace of a wrapper on a ramp between integer speeds of
    the range, with no interrupt: for each step in turn the call of the
    callback (if one is given) with the speed before the step, the three
    writes of the step, and one delay of [change_speed] milliseconds; at the
    end the last call of the callback, after which nothing is written and
    no delay is taken.  The delays add up to [change_speed] times the
    distance. *)
Theorem safe_drive_trace c t b ms s :
  speed s = Int c -> -100 <= c <= 100 -> -100 <= t <= 100 -> irq s = None ->
  (exists s',
      safe_drive (S (Z.to_nat (Z.abs (t - c)))) (Int t) ms (status_of b) s
      = Some (Ok tt, s') /\
      log s' = log s ++ ramp_trace b [SleepMs ms] c (ramp_steps c t)) /\
  (exists s',
      safe_drive_async (S (Z.to_nat (Z.abs (t - c)))) (Int t) ms (status_of b) s
      = Some (Ok tt, s') /\
      log s' = log s ++ ramp_trace b [AsyncSleepMs ms] c (ramp_steps c t)) /\
  slept (ramp_trace b [SleepMs ms] c (ramp_steps c t)) = ms * Z.abs (t - c) /\
  slept (ramp_trace b [AsyncSleepMs ms] c (ramp_steps c t)) = ms * Z.abs (t - c).
Proof.
  intros Hs Hc Ht Hi.
  destruct (for_ramp_Int_trace (sleep_ms ms) (fun i => i = None) [SleepMs ms]
              (sleep_trace (SleepMs ms) KeyboardInterrupt) t b Ht _ c s eq_refl Hs Hc Hi)
    as (s1 & E1 & _ & L1 & _).
  destruct (for_ramp_Int_trace (async_sleep_ms ms) (fun i => i = None) [AsyncSleepMs ms]
              (sleep_trace (AsyncSleepMs ms) CancelledError) t b Ht _ c s eq_refl Hs Hc Hi)
    as (s2 & E2 & _ & L2 & _).
  split; [| split; [| split]].
  - exists s1. unfold safe_drive, guarded. rewrite E1. split; [reflexivity | exact L1].
  - exists s2. unfold safe_drive_async, guarded. rewrite E2.
    split; [reflexivity | exact L2].
  - rewrite slept_ramp_trace, ramp_steps_length. simpl slept.
    rewrite Z.add_0_r, Z2Nat.id by lia. reflexivity.
  - rewrite slept_ramp_trace, ramp_steps_length. simpl slept.
    rewrite Z.add_0_r, Z2Nat.id by lia. reflexivity.
Qed.

Lemma safe_drive_trace_witness :
  speed fresh = Int 0 /\ -100 <= 0 <= 100 /\ -100 <= 2 <= 100 /\ irq fresh = None /\
  exists s', safe_drive 3 (Int 2) 70 (status_of true) fresh = Some (Ok tt, s') /\
             log s' = log fresh ++
                      [Status (Int 0); WriteP1 true; WriteP2 false; WriteDuty 655; SleepMs 70;
                       Status (Int 1); WriteP1 true; WriteP2 false; WriteDuty 1311; SleepMs 70;
                       Status (Int 2)].
Proof.
  assert (H1 : speed fresh = Int 0) by reflexivity.
  assert (H2 : -100 <= 0 <= 100) by lia.
  assert (H3 : -100 <= 2 <= 100) by lia.
  assert (H4 : irq fresh = None) by reflexivity.
  repeat (split; [assumption |]).
  destruct (proj1 (safe_drive_trace 0 2 true 70 fresh H1 H2 H3 H4)) as (s' & E & L).
  exists s'. split; [exact E | exact L].
Defined.

(** X11.  A ramp between two different integer speeds of the range ends
    with the outputs and the stored speed that [drive(target)] would have
    set at once, through the generator or, with no interrupt, either
    wrapper. *)
Theorem ramp_ends_as_drive_of_target c t b ms s :
  speed s = Int c -> -100 <= c <= 100 -> -100 <= t <= 100 -> c <> t ->
  (exists ys s',
      ramp_run (S (Z.to_nat (Z.abs (t - c)))) (Int t) (status_of b) s = Some (Ok ys, s') /\
      hw s' = hw (snd (drive (Some (Int t)) true s)) /\
      speed s' = speed (snd (drive (Some (Int t)) true s))) /\
  (irq s = None ->
   exists s1 s2,
      safe_drive (S (Z.to_nat (Z.abs (t - c)))) (Int t) ms (status_of b) s
      = Some (Ok tt, s1) /\
      hw s1 = hw (snd (drive (Some (Int t)) true s)) /\
      speed s1 = speed (snd (drive (Some (Int t)) true s)) /\
      safe_drive_async (S (Z.to_nat (Z.abs (t - c)))) (Int t) ms (status_of b) s
      = Some (Ok tt, s2) /\
      hw s2 = hw (snd (drive (Some (Int t)) true s)) /\
      speed s2 = speed (snd (drive (Some (Int t)) true s))).
Proof.
  intros Hs Hc Ht Hne.
  assert (D : hw (snd (drive (Some (Int t)) true s)) = drive_hw t true /\
              speed (snd (drive (Some (Int t)) true s)) = Int t).
  { rewrite drive_Int, (clampZ_id t Ht). simpl snd.
    now rewrite hw_drive_state_Int, speed_drive_state. }
  destruct D as [Dh Ds]. rewrite Dh, Ds.
  assert (F : (c =? t) = false) by (destruct (Z.eqb_spec c t); [contradiction | reflexivity]).
  split.
  - destruct (for_ramp_Int_trace (ret tt) (fun _ => True) [] ret_trace t b Ht
                _ c s eq_refl Hs Hc I) as (s' & E & Sp & _ & W).
    rewrite F in W. do 2 eexists. split; [exact E |]. split; assumption.
  - intros Hi.
    destruct (for_ramp_Int_trace (sleep_ms ms) (fun i => i = None) [SleepMs ms]
                (sleep_trace (SleepMs ms) KeyboardInterrupt) t b Ht _ c s eq_refl Hs Hc Hi)
      as (s1 & E1 & Sp1 & _ & W1).
    destruct (for_ramp_Int_trace (async_sleep_ms ms) (fun i => i = None) [AsyncSleepMs ms]
                (sleep_trace (AsyncSleepMs ms) CancelledError) t b Ht _ c s eq_refl Hs Hc Hi)
      as (s2 & E2 & Sp2 & _ & W2).
    rewrite F in W1, W2. exists s1, s2.
    unfold safe_drive, safe_drive_async, guarded. rewrite E1, E2.
    repeat split; assumption.
Qed.

Lemma ramp_ends_as_drive_of_target_witness :
  speed at_speed_10 = Int 10 /\ -100 <= 10 <= 100 /\ -100 <= -3 <= 100 /\ 10 <> -3 /\
  exists ys s', ramp_run 14 (Int (-3)) None at_speed_10 = Some (Ok ys, s') /\
                hw s' = hw (snd (drive (Some (Int (-3))) true at_speed_10)).
Proof.
  assert (H1 : speed at_speed_10 = Int 10) by reflexivity.
  assert (H2 : -100 <= 10 <= 100) by lia.
  assert (H3 : -100 <= -3 <= 100) by lia.
  assert (H4 : 10 <> -3) by lia.
  repeat (split; [assumption |]).
  destruct (proj1 (ramp_ends_as_drive_of_target 10 (-3) false 70 at_speed_10 H1 H2 H3 H4))
    as (ys & s' & E & W & _).
  exists ys, s'. split; [exact E | exact W].
Defined.

(** ** After an interrupt *)

Lemma ramp_steps_skipn t : forall k c,
  (k < Z.to_nat (Z.abs (t - c)))%nat ->
  ramp_steps (if c >? t then c - Z.of_nat (S k) else c + Z.of_nat (S k)) t
  = skipn (S k) (ramp_steps c t).
Proof.
  induction k as [|k IH]; intros c Hk; rewrite (ramp_steps_cons c t) by lia.
  - cbn [skipn]. unfold step_toward. destruct (c >? t); f_equal; lia.
  - change (skipn (S (S k)) (step_toward c t :: ramp_steps (step_toward c t) t))
      with (skipn (S k) (ramp_steps (step_toward c t) t)).
    rewrite <- IH.
    + unfold step_toward.
      destruct (Z.gtb_spec c t).
      * destruct (Z.gtb_spec (c - 1) t); [f_equal; lia | lia].
      * destruct (Z.gtb_spec (c + 1) t); [lia | f_equal; lia].
    + unfold step_toward. destruct (Z.gtb_spec c t); lia.
Qed.

(** X12.  When a ramp between integer speeds is interrupted in the delay
    after its step [k + 1], the wrapper returns with the motor braked but
    with the stored speed still that of the step: [drive()] returns it, not
    0.  A ramp started afterwards towards the same target goes on from this
    stored speed: it yields exactly the steps the first one had left, so its
    first step takes the motor from the braked state straight to the next
    speed of the interrupted ramp. *)
Theorem interrupted_ramp_keeps_its_speed k c t b ms s :
  irq s = Some k -> speed s = Int c -> -100 <= c <= 100 -> -100 <= t <= 100 ->
  (k < Z.to_nat (Z.abs (t - c)))%nat ->
  exists s1,
    safe_drive (S k) (Int t) ms (status_of b) s = Some (Ok tt, s1) /\
    is_brake s1 /\
    speed s1 = Int (if c >? t then c - Z.of_nat (S k) else c + Z.of_nat (S k)) /\
    fst (drive None true s1) = Ok (Int (nth k (ramp_steps c t) 0)) /\
    exists s2,
      ramp_run (Z.to_nat (Z.abs (t - c)) - k) (Int t) (status_of b) s1
      = Some (Ok (map Int (skipn (S k) (ramp_steps c t))), s2) /\
      speed s2 = Int t.
Proof.
  intros Hk Hs Hc Ht Hlt.
  destruct (for_ramp_Int_interrupted (SleepMs ms) KeyboardInterrupt b t Ht k c s
              Hk Hs Hc Hlt) as (s' & E & _ & Sp & _).
  exists (brake_state s').
  unfold safe_drive, guarded, sleep_ms. rewrite E, brake_eq.
  split; [reflexivity |]. split; [apply brake_state_is_brake |].
  assert (Sp1 : speed (brake_state s')
                = Int (if c >? t then c - Z.of_nat (S k) else c + Z.of_nat (S k)))
    by exact Sp.
  split; [exact Sp1 |]. split.
  - rewrite drive_None. cbn [fst]. rewrite Sp1, ramp_steps_nth by assumption. reflexivity.
  - set (c2 := if c >? t then c - Z.of_nat (S k) else c + Z.of_nat (S k)) in *.
    assert (Hc2 : -100 <= c2 <= 100 /\
                  S (Z.to_nat (Z.abs (t - c2))) = (Z.to_nat (Z.abs (t - c)) - k)%nat).
    { subst c2. destruct (Z.gtb_spec c t); lia. }
    destruct Hc2 as [R2 F2].
    destruct (for_ramp_Int (ret tt) (fun _ => True) ret_quiet t b Ht
                _ c2 (brake_state s') eq_refl Sp1 R2 I) as (s2 & E2 & Sp2 & _ & _).
    exists s2. unfold ramp_run. rewrite <- F2, E2.
    subst c2. rewrite ramp_steps_skipn by assumption.
    split; [reflexivity | exact Sp2].
Qed.

Lemma interrupted_ramp_keeps_its_speed_witness :
  irq interrupted_in_third_delay = Some 2%nat /\
  speed interrupted_in_third_delay = Int 0 /\
  -100 <= 0 <= 100 /\ -100 <= 5 <= 100 /\ (2 < Z.to_nat (Z.abs (5 - 0)))%nat /\
  exists s1, safe_drive 3 (Int 5) 70 (status_of false) interrupted_in_third_delay
             = Some (Ok tt, s1) /\
             is_brake s1 /\ speed s1 = Int 3 /\
             exists s2, ramp_run 3 (Int 5) (status_of false) s1
                        = Some (Ok [Int 4; Int 5], s2).
Proof.
  assert (H1 : irq interrupted_in_third_delay = Some 2%nat) by reflexivity.
  assert (H2 : speed interrupted_in_third_delay = Int 0) by reflexivity.
  assert (H3 : -100 <= 0 <= 100) by lia.
  assert (H4 : -100 <= 5 <= 100) by lia.
  assert (H5 : (2 < Z.to_nat (Z.abs (5 - 0)))%nat) by (simpl; lia).
  repeat (split; [assumption |]).
  destruct (interrupted_ramp_keeps_its_speed 2 0 5 false 70 interrupted_in_third_delay
              H1 H2 H3 H4 H5) as (s1 & E & B & Sp & _ & s2 & E2 & _).
  exists s1. split; [exact E |]. split; [exact B |]. split; [exact Sp |].
  exists s2. exact E2.
Defined.

(** ** Exceptions other than the interrupt *)

Lemma drive_ramp_next_raising e t s :
  drive_ramp_next t (Some (raising e)) s = (Raise e, s).
Proof.
  unfold drive_ramp_next. rewrite bind_eq, drive_None.
  destruct (neb (speed s) t); reflexivity.
Qed.

(** X13.  Only [KeyboardInterrupt] is caught by the wrappers.  Any other
    exception that ends the loop leaves the wrapper as it is, in the state
    reached, and [brake()] is not run.  In particular an exception raised by
    the callback leaves at the first call, before any step: nothing has
    been written, and the motor keeps the outputs it had. *)
Theorem wrappers_catch_the_interrupt_only e fuel t ms s :
  (forall sf s', e <> KeyboardInterrupt ->
     (for_ramp fuel t sf (sleep_ms ms) s = Some (Raise e, s') ->
      safe_drive fuel t ms sf s = Some (Raise e, s')) /\
     (for_ramp fuel t sf (async_sleep_ms ms) s = Some (Raise e, s') ->
      safe_drive_async fuel t ms sf s = Some (Raise e, s'))) /\
  ramp_run (S fuel) t (Some (raising e)) s = Some (Raise e, s) /\
  safe_drive (S fuel) t ms (Some (raising e)) s
  = Some (match e with
          | KeyboardInterrupt => (Ok tt, brake_state s)
          | _ => (Raise e, s)
          end) /\
  safe_drive_async (S fuel) t ms (Some (raising e)) s
  = Some (match e with
          | KeyboardInterrupt => (Ok tt, brake_state s)
          | _ => (Raise e, s)
          end).
Proof.
  split; [| split; [| split]].
  - intros sf s' Hne. split; intros E.
    + unfold safe_drive, guarded. rewrite E. destruct e; congruence.
    + unfold safe_drive_async, guarded. rewrite E. destruct e; congruence.
  - unfold ramp_run. now rewrite for_ramp_S, drive_ramp_next_raising.
  - unfold safe_drive, guarded. rewrite for_ramp_S, drive_ramp_next_raising.
    destruct e; reflexivity.
  - unfold safe_drive_async, guarded. rewrite for_ramp_S, drive_ramp_next_raising.
    destruct e; reflexivity.
Qed.

Lemma wrappers_catch_the_interrupt_only_witness :
  ValueError "full" <> KeyboardInterrupt /\
  safe_drive 9 (Int 50) 70 (Some (raising (ValueError "full"))) at_speed_10
  = Some (Raise (ValueError "full"), at_speed_10).
Proof.
  assert (H : ValueError "full" <> KeyboardInterrupt) by discriminate.
  split; [exact H |].
  apply (proj1 (proj1 (wrappers_catch_the_interrupt_only
                         (ValueError "full") 9 (Int 50) 70 at_speed_10)
                  (Some (raising (ValueError "full"))) at_speed_10 H)).
  reflexivity.
Defined.

(** ** With a standby pin *)

Lemma keeps_handle_same s s' : stby s' = stby s -> keeps_handle s s'.
Proof. intros H. unfold keeps_handle. now rewrite H. Qed.

Lemma keeps_handle_trans s1 s2 s3 :
  keeps_handle s1 s2 -> keeps_handle s2 s3 -> keeps_handle s1 s3.
Proof. unfold keeps_handle. tauto. Qed.

Lemma set_motor_stby dir sp s : stby (snd (set_motor dir sp s)) = stby s.
Proof.
  unfold set_motor.
  destruct (percent_to_duty_total sp) as (d & Hd & _).
  destruct (getattr_set dir) as [[ | | | ]|];
    unfold bind, call0, lift, raise; try rewrite set_forward_eq;
    try rewrite set_reverse_eq; cbn [set_raw_values]; try rewrite Hd;
    reflexivity.
Qed.

Lemma stby_value_handle v s : keeps_handle s (snd (stby_value v s)).
Proof.
  unfold stby_value, bind, get, keeps_handle.
  destruct (stby s); simpl; congruence.
Qed.

Lemma for_ramp_handle t b body :
  (forall s, keeps_handle s (snd (body s))) ->
  forall fuel s r s', for_ramp fuel t (status_of b) body s = Some (r, s') ->
                      keeps_handle s s'.
Proof.
  intros Hb. induction fuel as [|fuel IH]; intros s r s' H; [discriminate |].
  rewrite for_ramp_S in H.
  destruct (drive_ramp_next_ok t b s) as (o & s1 & E1 & _ & _ & St & _).
  rewrite E1 in H. apply keeps_handle_same in St.
  destruct o as [v|].
  - pose proof (Hb s1) as K2.
    destruct (body s1) as [[u|e] s2]; simpl snd in K2.
    + destruct (for_ramp fuel t (status_of b) body s2) as [[[vs|e] s3]|] eqn:E;
        try discriminate;
        injection H as _ <-; eauto using keeps_handle_trans.
    + injection H as _ <-. eauto using keeps_handle_trans.
  - injection H as _ <-. exact St.
Qed.

Lemma guarded_handle loop s r s' :
  (forall r1 s1, loop s = Some (r1, s1) -> keeps_handle s s1) ->
  guarded loop s = Some (r, s') -> keeps_handle s s'.
Proof.
  intros Hl H. unfold guarded in H.
  destruct (loop s) as [[[vs|e] s1]|]; try discriminate.
  - injection H as _ <-. eauto.
  - specialize (Hl _ _ eq_refl).
    destruct e; injection H as _ <-; exact Hl.
Qed.

Lemma run_keeps_handle c s s' : run c s = Some s' -> keeps_handle s s'.
Proof.
  destruct c; simpl run; intros H; try (injection H as <-).
  - destruct pin1, pin2, pwm_duty; apply keeps_handle_same; reflexivity.
  - apply keeps_handle_same; reflexivity.
  - apply keeps_handle_same; reflexivity.
  - apply keeps_handle_same; reflexivity.
  - apply keeps_handle_same; reflexivity.
  - apply keeps_handle_same, set_motor_stby.
  - apply keeps_handle_same. destruct sp as [sp|]; [| reflexivity].
    destruct (drive_Some sp auto_brake s) as (d & _ & _ & E). rewrite E.
    apply stby_drive_state.
  - destruct (drive_ramp_next_ok target_speed registered s) as (o & s1 & E & _ & _ & St & _).
    rewrite E. now apply keeps_handle_same.
  - destruct (safe_drive _ _ _ _ _) as [[r s1]|] eqn:E; [| discriminate].
    injection H as <-. unfold safe_drive in E.
    eapply guarded_handle; [| exact E].
    intros r1 s1'. apply for_ramp_handle. intros s0.
    apply keeps_handle_same. unfold sleep_ms, sleep_with.
    destruct (irq s0) as [[|k]|]; reflexivity.
  - destruct (safe_drive_async _ _ _ _ _) as [[r s1]|] eqn:E; [| discriminate].
    injection H as <-. unfold safe_drive_async in E.
    eapply guarded_handle; [| exact E].
    intros r1 s1'. apply for_ramp_handle. intros s0.
    apply keeps_handle_same. unfold async_sleep_ms, sleep_with.
    destruct (irq s0) as [[|k]|]; reflexivity.
  - apply stby_value_handle.
  - unfold off. rewrite bind_eq.
    assert (E : (if auto_brake then brake else coast) s
                = (Ok tt, if auto_brake then brake_state s else coast_state s))
      by (destruct auto_brake; reflexivity).
    rewrite E. eapply keeps_handle_trans; [| apply stby_value_handle].
    destruct auto_brake; apply keeps_handle_same; reflexivity.
Qed.

Lemma reachable_has_stby pin s : reachable (Some pin) s -> stby s <> None.
Proof.
  induction 1 as [l1 l2 d i v|c s s' _ IH H|i s _ IH].
  - rewrite init_eq. discriminate.
  - apply run_keeps_handle in H. now apply H.
  - exact IH.
Qed.

Lemma stby_value_some v s :
  stby s <> None -> stby_value v s = (Ok tt, set_stby v s).
Proof.
  intros H. unfold stby_value, bind, get. destruct (stby s); [reflexivity | contradiction].
Qed.

(** X14.  An instance built with a standby pin takes the chip out of
    standby first and then brakes.  From then on, in every state it can
    reach, [on()] and [off()] return without raising: [on()] raises the
    standby line and touches nothing else; [off(auto_brake)] brakes or
    coasts as asked and then lowers the line.  Neither changes the stored
    speed, and [on()] after [off()] does not bring the motor back: the
    outputs stay in the stop mode. *)
Theorem on_off_with_standby_pin pin s :
  reachable (Some pin) s ->
  (forall l1 l2 d i v,
      log (snd (init (Some pin) (blank l1 l2 d i v)))
      = [WriteStby true; WriteP1 true; WriteP2 true; WriteDuty 0] /\
      stby (snd (init (Some pin) (blank l1 l2 d i v))) = Some true) /\
  on s = (Ok tt, set_stby true s) /\
  hw (set_stby true s) = hw s /\
  (forall ab,
      off ab s = (Ok tt, set_stby false (if ab then brake_state s else coast_state s)) /\
      hw (snd (off ab s)) = (ab, ab, 0) /\
      speed (snd (off ab s)) = speed s /\
      on (snd (off ab s)) = (Ok tt, set_stby true (snd (off ab s))) /\
      hw (snd (on (snd (off ab s)))) = (ab, ab, 0) /\
      stby (snd (on (snd (off ab s)))) = Some true /\
      fst (drive None true (snd (on (snd (off ab s))))) = Ok (speed s)).
Proof.
  intros R. apply reachable_has_stby in R.
  split; [intros; now rewrite init_eq |].
  split; [now apply stby_value_some |]. split; [reflexivity |].
  intros ab.
  assert (Off : off ab s
                = (Ok tt, set_stby false (if ab then brake_state s else coast_state s))).
  { unfold off. rewrite bind_eq.
    destruct ab; [rewrite brake_eq | rewrite coast_eq]; apply stby_value_some; exact R. }
  rewrite Off. cbn [snd].
  assert (On : on (set_stby false (if ab then brake_state s else coast_state s))
               = (Ok tt, set_stby true
                           (set_stby false (if ab then brake_state s else coast_state s)))).
  { apply stby_value_some. discriminate. }
  rewrite On. cbn [snd].
  split; [reflexivity |].
  repeat split; destruct ab; reflexivity.
Qed.

Lemma on_off_with_standby_pin_witness :
  reachable (Some 6) with_standby /\
  on with_standby = (Ok tt, set_stby true with_standby) /\
  hw (snd (off false with_standby)) = (false, false, 0).
Proof.
  assert (R : reachable (Some 6) with_standby) by apply reach_init.
  split; [exact R |].
  destruct (on_off_with_standby_pin 6 with_standby R) as (_ & On & _ & Off).
  split; [exact On |]. exact (proj1 (proj2 (Off false))).
Defined.

(** ** Changing the direction behind [drive] *)

(** X15.  [set_reverse()] after [drive(z)] with [z > 0] (and
    [set_forward()] after [drive(z)] with [z < 0]) swaps the lines and keeps
    the duty: the outputs are those of [drive(-z)], at once and at the same
    duty, but the stored speed is still [z], so that [drive()] and the next
    ramp start from the speed of the other direction. *)
Theorem set_direction_reverses_behind_drive z ab s :
  (0 < z ->
   hw (snd (set_reverse (snd (drive (Some (Int z)) ab s))))
   = hw (snd (drive (Some (Int (- z))) ab s)) /\
   speed (snd (set_reverse (snd (drive (Some (Int z)) ab s)))) = Int (clampZ z) /\
   speed (snd (drive (Some (Int (- z))) ab s)) = Int (- clampZ z)) /\
  (z < 0 ->
   hw (snd (set_forward (snd (drive (Some (Int z)) ab s))))
   = hw (snd (drive (Some (Int (- z))) ab s)) /\
   speed (snd (set_forward (snd (drive (Some (Int z)) ab s)))) = Int (clampZ z) /\
   speed (snd (drive (Some (Int (- z))) ab s)) = Int (- clampZ z)).
Proof.
  assert (C : clampZ (- z) = - clampZ z) by (unfold clampZ; lia).
  assert (D : percent_to_duty_spec (- clampZ z) = percent_to_duty_spec (clampZ z)).
  { unfold percent_to_duty_spec. f_equal. f_equal. lia. }
  rewrite !drive_Int, set_reverse_eq, set_forward_eq, C. cbn [snd].
  rewrite !speed_drive_state, !hw_drive_state_Int.
  unfold hw, reverse_state, forward_state. cbn [p1 p2 pwm speed set_p1 set_p2].
  rewrite !speed_drive_state.
  assert (P : pwm (drive_state (Int (clampZ z)) ab (percent_to_duty_spec (clampZ z)) s)
              = snd (drive_hw (clampZ z) ab)).
  { rewrite <- hw_drive_state_Int with (s := s). reflexivity. }
  rewrite P. unfold drive_hw. rewrite D.
  split; intros Hz.
  - assert (0 < clampZ z) by (unfold clampZ; lia).
    destruct (Z.eqb_spec (clampZ z) 0); [lia |].
    destruct (Z.eqb_spec (- clampZ z) 0); [lia |].
    destruct (Z.ltb_spec 0 (- clampZ z)), (Z.ltb_spec (- clampZ z) 0); try lia.
    repeat split.
  - assert (clampZ z < 0) by (unfold clampZ; lia).
    destruct (Z.eqb_spec (clampZ z) 0); [lia |].
    destruct (Z.eqb_spec (- clampZ z) 0); [lia |].
    destruct (Z.ltb_spec 0 (- clampZ z)), (Z.ltb_spec (- clampZ z) 0); try lia.
    repeat split.
Qed.

Lemma set_direction_reverses_behind_drive_witness :
  0 < 10 /\
  hw (snd (set_reverse at_speed_10)) = hw (snd (drive (Some (Int (-10))) true fresh)) /\
  speed (snd (set_reverse at_speed_10)) = Int 10.
Proof.
  assert (H : 0 < 10) by lia.
  split; [exact H |].
  destruct (proj1 (set_direction_reverses_behind_drive 10 true fresh) H) as (W & Sp & _).
  split; [exact W | exact Sp].
Defined.
